(** * Conduit authorization utilities: a shallow embedding

    The relation validator, the tuple encoders, the object-index builder,
    the rule cache and the two access-list query templates of the
    authorization module, modelled as Rocq functions over [string], together
    with the properties the design document states about them.  Further
    sections model the notification validator, the gRPC metadata
    interceptors, the stored-file helpers, the folder path helpers and the
    JSON environment reader. *)

From Stdlib Require Import ZArith Ascii Lia Bool.
From stdpp Require Import gmap strings.

Local Open Scope Z_scope.

(** ** Characters used by the templates *)

Definition colon : ascii := ":"%char.
Definition hash : ascii := "#"%char.
Definition at_sign : ascii := "@"%char.
(** U+0022, the double quote of the quoted-identifier dialect. *)
Definition dq : string := String (ascii_of_nat 34) EmptyString.
(** U+000A, the line break inside the multi-line templates. *)
Definition nl : string := String (ascii_of_nat 10) EmptyString.

(** ** The JavaScript string primitives the utilities call *)

Module JS.

(** [s.startsWith(p)]. *)
Fixpoint startsWith (p s : string) : bool :=
  match p, s with
  | EmptyString, _ => true
  | String _ _, EmptyString => false
  | String a p', String b s' => Ascii.eqb a b && startsWith p' s'
  end.

(** [s.includes(needle)]: some position of [s] starts with [needle]. *)
Fixpoint includes (needle s : string) : bool :=
  startsWith needle s ||
  match s with
  | EmptyString => false
  | String _ s' => includes needle s'
  end.

(** [s.split(sep)] for a one-character separator: every occurrence of the
    separator ends a segment, and the result always has at least one
    segment (the empty string splits to one empty segment). *)
Fixpoint split (sep : ascii) (s : string) : list string :=
  match s with
  | EmptyString => [EmptyString]
  | String c s' =>
      if Ascii.eqb c sep then EmptyString :: split sep s'
      else match split sep s' with
           | seg :: rest => String c seg :: rest
           | [] => [String c EmptyString]
           end
  end.

(** [Boolean(b).toString()]. *)
Definition toString (b : bool) : string := if b then "true" else "false".

(** [/^[a-zA-Z]+$/.test(s)]: the character class, then one or more of it
    anchored at both ends of the input (no flags, so [$] is the end of the
    input only). *)
Definition in_class_a_zA_Z (c : ascii) : bool :=
  let n := nat_of_ascii c in
  ((97 <=? n)%nat && (n <=? 122)%nat) || ((65 <=? n)%nat && (n <=? 90)%nat).

Fixpoint all_in_class (s : string) : bool :=
  match s with
  | EmptyString => true
  | String c s' => in_class_a_zA_Z c && all_in_class s'
  end.

Definition test_letters_only (s : string) : bool :=
  match s with
  | EmptyString => false
  | String _ _ => all_in_class s
  end.

End JS.

(** ** Relation validation and tuple encoding *)

(** A thrown [Error] carries its message. *)
Inductive Error : Type := Err (message : string).

Definition checkRelation (subject relation object : string) : Error + unit :=
  if negb (JS.includes ":" subject) then
    inl (Err "Subject must be a valid resource identifier")
  else if negb (JS.includes ":" object) then
    inl (Err "Object must be a valid resource identifier")
  else if negb (JS.test_letters_only relation) then
    inl (Err "Relation must be a plain string")
  else if String.eqb subject object then
    inl (Err "Subject and object must be different")
  else inr tt.

Definition computeRelationTuple (subject relation object : string) : string :=
  subject +:+ "#" +:+ relation +:+ "@" +:+ object.

Definition computePermissionTuple (subject relation object : string) : string :=
  subject +:+ "#" +:+ relation +:+ "@" +:+ object.

(** ** The object index *)

(** [Partial<ObjectIndex>] as [constructObjectIndex] fills it.  The id and
    type fields come from an array access, which is [undefined] ([None])
    when the array is too short. *)
Record ObjectIndex : Type := mkObjectIndex {
  oi_subject : string;
  oi_subjectId : option string;
  oi_subjectType : option string;
  oi_subjectPermission : string;
  oi_entity : string;
  oi_entityId : option string;
  oi_entityType : option string;
  oi_relation : string;
  oi_inheritanceTree : list string
}.

Definition constructObjectIndex
    (subject permission role object : string) (inheritanceTree : list string)
    : ObjectIndex :=
  let wildcard := String.eqb role "*" || String.eqb object "*" in
  {| oi_subject := subject +:+ "#" +:+ permission;
     oi_subjectId := JS.split colon subject !! 1%nat;
     oi_subjectType := JS.split colon subject !! 0%nat;
     oi_subjectPermission := permission;
     oi_entity := if wildcard then "*" else object +:+ "#" +:+ role;
     oi_entityId := if wildcard then Some "*" else JS.split colon object !! 1%nat;
     oi_entityType := if wildcard then Some "*" else JS.split colon object !! 0%nat;
     oi_relation := if wildcard then "*" else role;
     oi_inheritanceTree := inheritanceTree |}.

(** ** The state service and the rule cache *)

Module State.

(** The two requests a client sends to [grpcSdk.state]. *)
Inductive Call : Type :=
| SetKey (key value : string) (expiry : Z)
| GetKey (key : string).

(** A client computation: it returns, or issues [setKey] and goes on, or
    issues [getKey] and goes on with the answer ([None] is [null]). *)
Inductive Client (A : Type) : Type :=
| Return (a : A)
| setKey (key value : string) (expiry : Z) (next : Client A)
| getKey (key : string) (next : option string -> Client A).
Arguments Return {A} a.
Arguments setKey {A} key value expiry next.
Arguments getKey {A} key next.

(** What the service holds for a key: the value and the instant, in
    milliseconds, at which it stops being valid. *)
Record Entry : Type := mkEntry { value : string; expires_at : Z }.

(** Modelled from the spec: the key-value service behind [grpcSdk.state]
    belongs to the grpc-sdk library and is not among the modelled files.
    The design document requires of it [setWithExpiry(key, value, ttlMs)],
    which overwrites any entry of the key and keeps the new one valid for
    [ttlMs] milliseconds from the write. *)
Definition set_with_expiry (now : Z) (key val : string) (ttl : Z)
    (st : gmap string Entry) : gmap string Entry :=
  <[key := mkEntry val (now + ttl)]> st.

(** Modelled from the spec: [get(key)] of the same service answers the
    value or absent, an expired entry counting as absent. *)
Definition get (now : Z) (key : string) (st : gmap string Entry)
    : option string :=
  match st !! key with
  | Some e => if now <? expires_at e then Some (value e) else None
  | None => None
  end.

(** Running a client at instant [now] against the service: the result, the
    service state afterwards, and the calls issued, in order. *)
Fixpoint run {A : Type} (now : Z) (st : gmap string Entry) (c : Client A)
    : A * gmap string Entry * list Call :=
  match c with
  | Return a => (a, st, [])
  | setKey key val ttl next =>
      let '(a, st', calls) := run now (set_with_expiry now key val ttl st) next in
      (a, st', SetKey key val ttl :: calls)
  | getKey key next =>
      let '(a, st', calls) := run now st (next (get now key st)) in
      (a, st', GetKey key :: calls)
  end.

Definition result {A : Type} (r : A * gmap string Entry * list Call) : A := r.1.1.
Definition final {A : Type} (r : A * gmap string Entry * list Call)
    : gmap string Entry := r.1.2.
Definition calls {A : Type} (r : A * gmap string Entry * list Call)
    : list Call := r.2.

End State.

Module RuleCache.
Import State.

Definition storeResolution (computedTuple : string) (decision : bool)
    : Client unit :=
  setKey ("ruleCache:" +:+ computedTuple) (JS.toString decision) 2000
    (Return tt).

(** The promise resolves to [boolean | null]: [Some d] is a hit with
    decision [d], [None] is a miss. *)
Definition findResolution (computedTuple : string) : Client (option bool) :=
  getKey ("ruleCache:" +:+ computedTuple)
    (fun value =>
       match value with
       | Some v => Return (Some (String.eqb v "true"))
       | None => Return None
       end).

End RuleCache.

(** The tri-state answer of a lookup. *)
Definition Miss : option bool := None.
Definition Hit (decision : bool) : option bool := Some decision.

(** ** The access-list query templates *)

Definition getPostgresAccessListQuery
    (objectTypeCollection computedTuple subject objectType action : string)
    : string :=
  nl +:+
  "      SELECT s.*" +:+ nl +:+
  "      FROM " +:+ dq +:+ objectTypeCollection +:+ dq +:+ " as s" +:+ nl +:+
  "               INNER JOIN ((SELECT obj.entity" +:+ nl +:+
  "                            FROM (SELECT *" +:+ nl +:+
  "                                  FROM " +:+ dq +:+ "cnd_ActorIndex" +:+ dq +:+ nl +:+
  "                                  WHERE subject = '" +:+ subject +:+ "') as actors" +:+ nl +:+
  "                                     INNER JOIN (SELECT *" +:+ nl +:+
  "                                                 FROM " +:+ dq +:+ "cnd_ObjectIndex" +:+ dq +:+ nl +:+
  "                                                 WHERE " +:+ dq +:+ "subjectType" +:+ dq +:+ " = '" +:+ objectType +:+ "'" +:+ nl +:+
  "                                                   AND " +:+ dq +:+ "subjectPermission" +:+ dq +:+ " = '" +:+ action +:+ "') as obj" +:+ nl +:+
  "                                                ON actors.entity = obj.entity OR obj.entity = '*')" +:+ nl +:+
  "                           UNION" +:+ nl +:+
  "                           (SELECT " +:+ dq +:+ "computedTuple" +:+ dq +:+ nl +:+
  "                            FROM " +:+ dq +:+ "cnd_Permission" +:+ dq +:+ nl +:+
  "                            WHERE " +:+ dq +:+ "computedTuple" +:+ dq +:+ " LIKE '" +:+ computedTuple +:+ "%')) idx" +:+ nl +:+
  "                          ON idx.entity LIKE '%' || TEXT(s._id) || '%'" +:+ nl +:+
  "  ".

Definition getSQLAccessListQuery
    (objectTypeCollection computedTuple subject objectType action : string)
    : string :=
  "SELECT " +:+ objectTypeCollection +:+ ".*" +:+ nl +:+
  "          FROM " +:+ objectTypeCollection +:+ nl +:+
  "                   INNER JOIN (SELECT *" +:+ nl +:+
  "                               FROM cnd_Permission" +:+ nl +:+
  "                               WHERE computedTuple LIKE '" +:+ computedTuple +:+ "%') permissions" +:+ nl +:+
  "                              ON permissions.computedTuple = '" +:+ computedTuple +:+ ":' || " +:+ objectTypeCollection +:+ "._id" +:+ nl +:+
  "                   INNER JOIN (SELECT *" +:+ nl +:+
  "                               FROM cnd_ActorIndex" +:+ nl +:+
  "                               WHERE subject = '" +:+ subject +:+ "') actors ON 1 = 1" +:+ nl +:+
  "                   INNER JOIN (SELECT *" +:+ nl +:+
  "                               FROM cnd_ObjectIndex" +:+ nl +:+
  "                               WHERE " +:+ dq +:+ "subjectType" +:+ dq +:+ " = '" +:+ objectType +:+ "'" +:+ nl +:+
  "                                 AND " +:+ dq +:+ "subjectPermission" +:+ dq +:+ " = '" +:+ action +:+ "') objects" +:+ nl +:+
  "                              ON actors.entity = obj.entity OR obj.entity = '*';".

(** ** Reading a generated query

    What a query text names: the relations after [FROM], the names it binds
    for its row sources (a table name after [FROM], a name after [as], a
    name after a closing parenthesis), and the qualifiers its column
    references use (the [q] of [q.column]). *)

Module SqlText.

Definition is_blank (c : ascii) : bool :=
  Ascii.eqb c " " || Ascii.eqb c (ascii_of_nat 10).

(** The runs between blanks, empty runs included; the head of the result
    is the run in progress. *)
Fixpoint runs (s : string) : list string :=
  match s with
  | EmptyString => [EmptyString]
  | String c s' =>
      if is_blank c then EmptyString :: runs s'
      else match runs s' with
           | r :: rest => String c r :: rest
           | [] => [String c EmptyString]
           end
  end.

Definition nonempty (w : string) : bool :=
  match w with EmptyString => false | String _ _ => true end.

Definition words (s : string) : list string := filter nonempty (runs s).

Definition is_name_char (c : ascii) : bool :=
  let n := nat_of_ascii c in
  JS.in_class_a_zA_Z c || ((48 <=? n)%nat && (n <=? 57)%nat) || Ascii.eqb c "_".

Fixpoint all_name_chars (w : string) : bool :=
  match w with
  | EmptyString => true
  | String c w' => is_name_char c && all_name_chars w'
  end.

Definition keywords : list string :=
  ["SELECT"; "FROM"; "WHERE"; "AND"; "OR"; "ON"; "INNER"; "JOIN"; "UNION";
   "LIKE"; "as"].

Definition is_keyword (w : string) : bool :=
  existsb (String.eqb w) keywords.

Definition is_name (w : string) : bool :=
  nonempty w && all_name_chars w && negb (is_keyword w).

(** A word without the double quotes around it, if it has them. *)
Definition unquote (w : string) : string :=
  match JS.split (ascii_of_nat 34) w with
  | [EmptyString; inner; EmptyString] => inner
  | _ => w
  end.

Fixpoint ends_with_paren (w : string) : bool :=
  match w with
  | EmptyString => false
  | String c EmptyString => Ascii.eqb c ")"
  | String _ w' => ends_with_paren w'
  end.

(** The relations read: the names that follow [FROM]. *)
Fixpoint sources_from (prev : string) (ws : list string) : list string :=
  match ws with
  | [] => []
  | w :: ws' =>
      (if String.eqb prev "FROM" && is_name (unquote w)
       then [unquote w] else []) ++ sources_from w ws'
  end.

Definition sources (q : string) : list string :=
  sources_from EmptyString (words q).

(** The names bound for row sources anywhere in the text. *)
Fixpoint bound_from (prev : string) (ws : list string) : list string :=
  match ws with
  | [] => []
  | w :: ws' =>
      (if (String.eqb prev "FROM" || String.eqb prev "as" || ends_with_paren prev)
          && is_name (unquote w)
       then [unquote w] else []) ++ bound_from w ws'
  end.

Definition bound (q : string) : list string :=
  bound_from EmptyString (words q).

(** The qualifier of a column reference: the text before the first dot,
    after the last opening parenthesis. *)
Definition qualifier (w : string) : option string :=
  match JS.split "." w with
  | q :: _ :: _ => last (JS.split "(" q)
  | _ => None
  end.

Definition qualifiers (q : string) : list string :=
  omap qualifier (words q).

Definition all_bound (q : string) : bool :=
  forallb (fun a => existsb (String.eqb a) (bound q)) (qualifiers q).

(** [p] occurs in [s]. *)
Definition occurs_in (p s : string) : Prop :=
  exists before after, s = before +:+ p +:+ after.

(** [s] ends with [p]. *)
Definition ends_with (p s : string) : Prop :=
  exists before, s = before +:+ p.

End SqlText.

(** ** Push notification payloads *)

Module PushNotifications.

Section Payload.
Variable Data : Type.

(** The fields of [ISendNotification] and [ISendNotificationToManyDevices]
    that the validation reads; each may be missing. *)
Record Notification : Type := mkNotification {
  n_isSilent : option bool;
  n_title : option string;
  n_body : option string;
  n_data : option Data
}.

(** Truthiness of an optional boolean, of an optional string (the empty
    string is falsy) and of an optional object. *)
Definition truthy_bool (b : option bool) : bool :=
  match b with Some true => true | _ => false end.

Definition truthy_string (s : option string) : bool :=
  match s with Some (String _ _) => true | _ => false end.

Definition truthy_object (d : option Data) : bool :=
  match d with Some _ => true | None => false end.

Definition validateNotification (notification : Notification) : Error + bool :=
  if truthy_bool (n_isSilent notification)
     && (truthy_string (n_title notification)
         || truthy_string (n_body notification)) then
    inl (Err "Cannot send a silent notification with a title")
  else if truthy_bool (n_isSilent notification)
          && negb (truthy_object (n_data notification)) then
    inl (Err "Cannot send a silent notification without data")
  else inr true.

End Payload.

Arguments mkNotification {Data} _ _ _ _.
Arguments n_isSilent {Data} _.
Arguments n_title {Data} _.
Arguments n_body {Data} _.
Arguments n_data {Data} _.
Arguments validateNotification {Data} _.

End PushNotifications.

(** ** Client middleware that sets a metadata entry *)

Module Interceptors.

(** nice-grpc's [Metadata.set] checks a string value against [/^[ -~]*$/],
    the printable ASCII characters 32 to 126, and throws when it does not
    match; only then does it replace the value of the key.  The two keys
    set below are legal, non-binary keys. *)
Definition is_printable (c : ascii) : bool :=
  let n := nat_of_ascii c in (32 <=? n)%nat && (n <=? 126)%nat.

Fixpoint legal_value (value : string) : bool :=
  match value with
  | EmptyString => true
  | String c rest => is_printable c && legal_value rest
  end.

Definition set (key value : string) (md : gmap string string)
    : option (gmap string string) :=
  if legal_value value then Some (<[key := value]> md) else None.

(** How a middleware ends: it throws before it continues the call, or it
    continues and yields what the continuation yields. *)
Inductive Outcome (Response : Type) : Type :=
| Threw
| Continued (response : Response).
Arguments Threw {Response}.
Arguments Continued {Response} response.

Section Middleware.
Variables Request Response Others : Type.

(** [CallOptions]: the metadata, when there is one, and the other options. *)
Record CallOptions : Type := mkCallOptions {
  metadata : option (gmap string string);
  others : Others
}.

(** [ClientMiddlewareCall]: the request and what continues the call. *)
Record ClientMiddlewareCall : Type := mkCall {
  request : Request;
  next : Request -> CallOptions -> Response
}.

(** A middleware creates the metadata when it is missing, sets its entry on
    it, and continues with the same request and the same options object;
    when [set] throws, the middleware throws and the call is not continued.
    The result pairs the options object, as the middleware leaves it, with
    the outcome. *)
Definition getGrpcSignedTokenInterceptor (grpcToken : string)
    (call : ClientMiddlewareCall) (options : CallOptions)
    : CallOptions * Outcome Response :=
  let options :=
    match metadata options with
    | None => mkCallOptions (Some ∅) (others options)
    | Some _ => options
    end in
  match metadata options with
  | Some md =>
      match set "grpc-token" grpcToken md with
      | Some md' =>
          let options := mkCallOptions (Some md') (others options) in
          (options, Continued (next call (request call) options))
      | None => (options, Threw)
      end
  | None => (options, Continued (next call (request call) options))
  end.

Definition getModuleNameInterceptor (moduleName : string)
    (call : ClientMiddlewareCall) (options : CallOptions)
    : CallOptions * Outcome Response :=
  let options :=
    match metadata options with
    | None => mkCallOptions (Some ∅) (others options)
    | Some _ => options
    end in
  match metadata options with
  | Some md =>
      match set "module-name" moduleName md with
      | Some md' =>
          let options := mkCallOptions (Some md') (others options) in
          (options, Continued (next call (request call) options))
      | None => (options, Threw)
      end
  | None => (options, Continued (next call (request call) options))
  end.

End Middleware.

Arguments mkCallOptions {Others} _ _.
Arguments metadata {Others} _.
Arguments others {Others} _.
Arguments mkCall {Request Response Others} _ _.
Arguments request {Request Response Others} _.
Arguments next {Request Response Others} _ _ _.
Arguments getGrpcSignedTokenInterceptor {Request Response Others} _ _ _.
Arguments getModuleNameInterceptor {Request Response Others} _ _ _.



End Interceptors.

(** ** Stored files *)

Module Storage.

(** A call on [ConduitGrpcSdk.Metrics]; an increment may come without an
    amount. *)
Inductive MetricCall : Type :=
| Increment (name : string) (amount : option Z)
| Decrement (name : string) (amount : Z).

(** [updateFileMetrics] on byte counts.  Nothing is called when there is no
    [Metrics] object. *)
Definition updateFileMetrics (metrics : bool) (currentSize newSize : Z)
    : list MetricCall :=
  let fileSizeDiff := Z.abs (currentSize - newSize) in
  if fileSizeDiff <? 0 then
    if metrics then [Increment "storage_size_bytes_total" (Some fileSizeDiff)] else []
  else
    if metrics then [Decrement "storage_size_bytes_total" fileSizeDiff] else [].

(** What the functions read of a [File] document. *)
Record File : Type := mkFile {
  file_id : string;
  file_name : string;
  file_folder : string;
  file_container : string;
  file_size : Z;
  file_isPublic : bool
}.

(** [IFileParams]; the data is a buffer, a string of bytes. *)
Record IFileParams : Type := mkParams {
  p_name : string;
  p_alias : option string;
  p_data : string;
  p_container : string;
  p_folder : string;
  p_mimeType : option string;
  p_isPublic : bool;
  p_size : option Z
}.

(** A document handed to [create] or [findByIdAndUpdate].  A key the
    document does not have is [None]; the url, when the key is there, is a
    url or [null]. *)
Record FileFields : Type := mkFields {
  d_name : option string;
  d_alias : option string;
  d_mimeType : option string;
  d_folder : option string;
  d_container : option string;
  d_size : option Z;
  d_isPublic : option bool;
  d_url : option (option string)
}.

(** The calls on the storage provider, the file collection and the metrics,
    as they are recorded. *)
Inductive Op : Type :=
| OStore (container path data : string) (isPublic : bool)
| ODelete (container path : string)
| OGetPublicUrl (container path : string)
| OGetUploadUrl (container path : string)
| OCreate (doc : FileFields)
| OFindByIdAndUpdate (id : string) (doc : FileFields)
| OMetric (call : MetricCall).

(** A computation that awaits such calls one after the other. *)
Inductive Prog (A : Type) : Type :=
| Ret (a : A)
| Store (container path data : string) (isPublic : bool) (k : Prog A)
| Delete (container path : string) (k : Prog A)
| GetPublicUrl (container path : string) (k : string -> Prog A)
| GetUploadUrl (container path : string) (k : string -> Prog A)
| Create (doc : FileFields) (k : File -> Prog A)
| FindByIdAndUpdate (id : string) (doc : FileFields) (k : option File -> Prog A)
| Metric (call : MetricCall) (k : Prog A).
Arguments Ret {A} a.
Arguments Store {A} container path data isPublic k.
Arguments Delete {A} container path k.
Arguments GetPublicUrl {A} container path k.
Arguments GetUploadUrl {A} container path k.
Arguments Create {A} doc k.
Arguments FindByIdAndUpdate {A} id doc k.
Arguments Metric {A} call k.

Fixpoint bind {A B : Type} (p : Prog A) (f : A -> Prog B) : Prog B :=
  match p with
  | Ret a => f a
  | Store c q d b k => Store c q d b (bind k f)
  | Delete c q k => Delete c q (bind k f)
  | GetPublicUrl c q k => GetPublicUrl c q (fun u => bind (k u) f)
  | GetUploadUrl c q k => GetUploadUrl c q (fun u => bind (k u) f)
  | Create doc k => Create doc (fun x => bind (k x) f)
  | FindByIdAndUpdate i doc k => FindByIdAndUpdate i doc (fun x => bind (k x) f)
  | Metric m k => Metric m (bind k f)
  end.

#[export] Instance prog_ret : MRet Prog := @Ret.
#[export] Instance prog_bind : MBind Prog := fun A B f p => bind p f.

Definition store (container path data : string) (isPublic : bool) : Prog unit :=
  Store container path data isPublic (Ret tt).
Definition delete (container path : string) : Prog unit :=
  Delete container path (Ret tt).
Definition getPublicUrl (container path : string) : Prog string :=
  GetPublicUrl container path Ret.
Definition getUploadUrl (container path : string) : Prog string :=
  GetUploadUrl container path Ret.
Definition create (doc : FileFields) : Prog File := Create doc Ret.
Definition findByIdAndUpdate (id : string) (doc : FileFields) : Prog (option File) :=
  FindByIdAndUpdate id doc Ret.
Fixpoint metrics (calls : list MetricCall) : Prog unit :=
  match calls with
  | [] => Ret tt
  | m :: rest => Metric m (metrics rest)
  end.

(** How the collaborators answer.  [false] and [None] stand for a promise
    that rejects: the function awaiting it rejects too, having made the
    calls up to that one. *)
Record Env : Type := mkEnv {
  store_ok : string -> string -> bool;
  delete_ok : string -> string -> bool;
  public_url : string -> string -> option string;
  upload_url : string -> string -> option string;
  created : FileFields -> option File;
  updated : string -> FileFields -> option (option File)
}.

(** The calls made, in order, and the value returned if no call rejected. *)
Fixpoint run {A : Type} (env : Env) (p : Prog A) : list Op * option A :=
  match p with
  | Ret a => ([], Some a)
  | Store c q d b k =>
      if store_ok env c q
      then let (ops, r) := run env k in (OStore c q d b :: ops, r)
      else ([OStore c q d b], None)
  | Delete c q k =>
      if delete_ok env c q
      then let (ops, r) := run env k in (ODelete c q :: ops, r)
      else ([ODelete c q], None)
  | GetPublicUrl c q k =>
      match public_url env c q with
      | Some u => let (ops, r) := run env (k u) in (OGetPublicUrl c q :: ops, r)
      | None => ([OGetPublicUrl c q], None)
      end
  | GetUploadUrl c q k =>
      match upload_url env c q with
      | Some u => let (ops, r) := run env (k u) in (OGetUploadUrl c q :: ops, r)
      | None => ([OGetUploadUrl c q], None)
      end
  | Create doc k =>
      match created env doc with
      | Some f => let (ops, r) := run env (k f) in (OCreate doc :: ops, r)
      | None => ([OCreate doc], None)
      end
  | FindByIdAndUpdate i doc k =>
      match updated env i doc with
      | Some f => let (ops, r) := run env (k f) in (OFindByIdAndUpdate i doc :: ops, r)
      | None => ([OFindByIdAndUpdate i doc], None)
      end
  | Metric m k => let (ops, r) := run env k in (OMetric m :: ops, r)
  end.

(** [(folder === '/' ? '' : folder) + name], the object key the functions
    compute at each use. *)
Definition objectPath (folder name : string) : string :=
  (if String.eqb folder "/" then EmptyString else folder) +:+ name.

Definition _createFileUploadUrl (metrics_on : bool) (params : IFileParams)
    : Prog (File * string) :=
  let fileName := objectPath (p_folder params) (p_name params) in
  store (p_container params) fileName "PENDING UPLOAD" (p_isPublic params) ;;
  publicUrl ←
    (if p_isPublic params
     then u ← getPublicUrl (p_container params) fileName; mret (Some u)
     else mret None);
  metrics (if metrics_on then [Increment "files_total" None] else []) ;;
  metrics (if metrics_on
           then [Increment "storage_size_bytes_total" (p_size params)] else []) ;;
  file ← create {| d_name := Some (p_name params);
                   d_alias := p_alias params;
                   d_mimeType := p_mimeType params;
                   d_size := p_size params;
                   d_folder := Some (p_folder params);
                   d_container := Some (p_container params);
                   d_isPublic := Some (p_isPublic params);
                   d_url := Some publicUrl |};
  url ← getUploadUrl (p_container params) fileName;
  mret (file, url).

Definition _updateFile (metrics_on : bool) (file : File) (params : IFileParams)
    : Prog (option File) :=
  let onlyDataUpdate :=
    String.eqb (p_name params) (file_name file)
    && String.eqb (p_folder params) (file_folder file)
    && String.eqb (p_container params) (file_container file) in
  store (p_container params) (objectPath (p_folder params) (p_name params))
    (p_data params) (file_isPublic file) ;;
  (if negb onlyDataUpdate
   then delete (file_container file)
          (objectPath (file_folder file) (file_name file))
   else mret tt) ;;
  url ←
    (if file_isPublic file
     then u ← getPublicUrl (p_container params)
                (objectPath (p_folder params) (p_name params));
          mret (Some u)
     else mret None);
  updatedFile ← findByIdAndUpdate (file_id file)
                  {| d_name := Some (p_name params);
                     d_alias := p_alias params;
                     d_folder := Some (p_folder params);
                     d_container := Some (p_container params);
                     d_url := Some url;
                     d_mimeType := p_mimeType params;
                     d_size := None;
                     d_isPublic := None |};
  metrics (updateFileMetrics metrics_on (file_size file)
             (Z.of_nat (String.length (p_data params)))) ;;
  mret updatedFile.

Definition _updateFileUploadUrl (metrics_on : bool) (file : File)
    (params : IFileParams) : Prog (option File * string) :=
  let onlyDataUpdate :=
    String.eqb (p_name params) (file_name file)
    && String.eqb (p_folder params) (file_folder file)
    && String.eqb (p_container params) (file_container file) in
  let size_or_old := match p_size params with Some s => s | None => file_size file end in
  updatedFile ←
    (if onlyDataUpdate
     then findByIdAndUpdate (file_id file)
            {| d_mimeType := p_mimeType params;
               d_alias := p_alias params;
               d_size := Some size_or_old;
               d_name := None; d_folder := None; d_container := None;
               d_isPublic := None; d_url := None |}
     else
       store (p_container params) (objectPath (p_folder params) (p_name params))
         "PENDING UPLOAD" (file_isPublic file) ;;
       delete (file_container file)
         (objectPath (file_folder file) (file_name file)) ;;
       url ←
         (if file_isPublic file
          then u ← getPublicUrl (p_container params)
                     (objectPath (p_folder params) (p_name params));
               mret (Some u)
          else mret None);
       findByIdAndUpdate (file_id file)
         {| d_name := Some (p_name params);
            d_alias := p_alias params;
            d_folder := Some (p_folder params);
            d_container := Some (p_container params);
            d_url := Some url;
            d_mimeType := p_mimeType params;
            d_size := Some size_or_old;
            d_isPublic := None |});
  (match p_size params with
   | Some size => metrics (updateFileMetrics metrics_on (file_size file) size)
   | None => mret tt
   end) ;;
  uploadUrl ← getUploadUrl (p_container params)
                (objectPath (p_folder params) (p_name params));
  mret (updatedFile, uploadUrl).

End Storage.

(** ** Folder paths *)

Module Paths.

(** Strings are sequences of code units below 256.  Of the white space that
    [trim] and [trimEnd] remove, those are the codes 9 to 13, 32 and 160. *)
Definition is_white_space (c : ascii) : bool :=
  let n := nat_of_ascii c in
  ((9 <=? n)%nat && (n <=? 13)%nat) || (n =? 32)%nat || (n =? 160)%nat.

Fixpoint trimStart (s : string) : string :=
  match s with
  | EmptyString => EmptyString
  | String c s' => if is_white_space c then trimStart s' else s
  end.

Fixpoint trimEnd (s : string) : string :=
  match s with
  | EmptyString => EmptyString
  | String c s' =>
      match trimEnd s' with
      | EmptyString => if is_white_space c then EmptyString else String c EmptyString
      | String d t => String c (String d t)
      end
  end.

Definition trim (s : string) : string := trimEnd (trimStart s).

(** [s.replace(/^\/|\/$/g, '')]: a slash at the start goes, and so does a
    slash at the end of what is left. *)
Definition drop_leading_slash (s : string) : string :=
  match s with
  | String c s' => if Ascii.eqb c "/" then s' else s
  | EmptyString => EmptyString
  end.

Fixpoint drop_trailing_slash (s : string) : string :=
  match s with
  | EmptyString => EmptyString
  | String c EmptyString => if Ascii.eqb c "/" then EmptyString else s
  | String c s' => String c (drop_trailing_slash s')
  end.

Definition strip_slashes (s : string) : string :=
  drop_trailing_slash (drop_leading_slash s).

Definition is_empty (s : string) : bool :=
  match s with EmptyString => true | String _ _ => false end.

Section NodePath.
(** [path.normalize] and [path.join] of the runtime. *)
Variable normalize : string -> string.
Variable join : string -> string -> string.

Definition normalizeFolderPath (folderPath : option string) : string :=
  match folderPath with
  | None => "/"
  | Some folderPath =>
      if is_empty folderPath || String.eqb (trim folderPath) EmptyString
         || String.eqb (trim folderPath) "/"
      then "/"
      else strip_slashes (normalize (trim folderPath)) +:+ "/"
  end.

(** The loop of [getNestedPaths] over the segments. *)
Fixpoint nested_from (currentPath : string) (pathSegments : list string)
    : list string :=
  match pathSegments with
  | [] => []
  | segment :: rest =>
      let currentPath := join currentPath segment in
      (currentPath +:+ "/") :: nested_from currentPath rest
  end.

Definition getNestedPaths (inputPath : string) : list string :=
  let strippedPath :=
    if is_empty (trim inputPath) then EmptyString
    else strip_slashes (normalize (trim inputPath)) in
  if negb (String.eqb strippedPath EmptyString)
  then nested_from EmptyString (JS.split "/" strippedPath)
  else [].

(** The loop of [deepPathHandler] from index [i], with [fuel] iterations
    left at most.  The handler answers whether its promise resolves; when it
    rejects the loop stops.  The result is the invocations made and whether
    the function resolved. *)
Fixpoint handle_from (handler : string -> bool -> bool) (paths : list string)
    (i fuel : nat) : list (string * bool) * bool :=
  match fuel with
  | O => ([], true)
  | S fuel' =>
      if (i <? length paths)%nat then
        match paths !! i with
        | Some p =>
            let isLast := (i =? length paths - 1)%nat in
            if handler p isLast
            then let (calls, ok) := handle_from handler paths (S i) fuel' in
                 ((p, isLast) :: calls, ok)
            else ([(p, isLast)], false)
        | None => ([], true)
        end
      else ([], true)
  end.

Definition deepPathHandler (inputPath : string)
    (handler : string -> bool -> bool) : list (string * bool) * bool :=
  let paths := getNestedPaths inputPath in
  handle_from handler paths 0 (length paths).

End NodePath.

End Paths.

(** ** Configuration read from the environment *)

Module JsonEnv.

Section Runtime.
Variable Json : Type.
(** [process.env], [JSON.parse] and reading a file as text; the last two
    answer [None] when they throw. *)
Variable env : string -> option string.
Variable parse : string -> option Json.
Variable readFileSync : string -> option string.

Definition invalid_json (envName : string) : Error :=
  Err ("Invalid JSON in " +:+ envName).

(** The result is the thrown error, [undefined] ([None]) or the
    configuration.  The handler may itself throw. *)
Definition getJsonEnv (envName : string) (envValue : option string)
    (handleString : option (string -> Error + Json)) : Error + option Json :=
  let envValue :=
    match envValue with
    | Some v => Some v
    | None => env envName
    end in
  match envValue with
  | None => inr None
  | Some envValue =>
      if Paths.is_empty envValue then inr None
      else if JS.startsWith "{" envValue then
        match parse envValue with
        | Some jsonConfig => inr (Some jsonConfig)
        | None => inl (invalid_json envName)
        end
      else
        match
          match readFileSync envValue with
          | Some text => parse (Paths.trimEnd text)
          | None => None
          end
        with
        | Some jsonConfig => inr (Some jsonConfig)
        | None =>
            match handleString with
            | Some handle =>
                match handle envValue with
                | inr jsonConfig => inr (Some jsonConfig)
                | inl e => inl e
                end
            | None => inl (invalid_json envName)
            end
        end
  end.

End Runtime.

Arguments getJsonEnv {Json} env parse readFileSync envName envValue handleString.

End JsonEnv.

(** ** Vocabulary of the statements *)

(** [A-Z] is 65..90 and [a-z] is 97..122. *)
Definition ascii_letter (c : ascii) : Prop :=
  (65 <= nat_of_ascii c <= 90)%nat \/ (97 <= nat_of_ascii c <= 122)%nat.

Definition has_colon (s : string) : Prop :=
  exists a b, s = a +:+ ":" +:+ b.

Definition has_non_letter (s : string) : Prop :=
  exists a c b, s = a +:+ String c b /\ ~ ascii_letter c.

Definition raises {A : Type} (r : Error + A) : Prop := exists e, r = inl e.

(** The four reasons for which a triple is refused. *)
Definition refused (subject relation object : string) : Prop :=
  ~ has_colon subject \/ ~ has_colon object \/
  (relation = EmptyString \/ has_non_letter relation) \/
  subject = object.

(** Neither reserved separator of the tuple encoding occurs in [s]. *)
Definition separator_free (s : string) : bool :=
  negb (JS.includes "#" s) && negb (JS.includes "@" s).

Definition no_colon (s : string) : bool := negb (JS.includes ":" s).

(** Nothing, or a colon and anything after it. *)
Definition colon_tail (s : string) : bool :=
  match s with
  | EmptyString => true
  | String c _ => Ascii.eqb c colon
  end.

(** The key under which the cache keeps the decision of a tuple. *)
Definition cache_key (computedTuple : string) : string :=
  "ruleCache:" +:+ computedTuple.

(** An optional string that is there and not empty. *)
Definition has_text (s : option string) : Prop :=
  exists c rest, s = Some (String c rest).

(** The options a middleware hands on: the caller's metadata, or an empty
    one, with the entry set, and the other options. *)
Definition with_entry {Others : Type} (key value : string)
    (options : Interceptors.CallOptions Others) : Interceptors.CallOptions Others :=
  Interceptors.mkCallOptions
    (Some (<[key := value]> (default ∅ (Interceptors.metadata options))))
    (Interceptors.others options).
Arguments with_entry : simpl never.

(** The options a middleware leaves when it throws: the caller's, with an
    empty metadata created when there was none. *)
Definition with_metadata {Others : Type}
    (options : Interceptors.CallOptions Others) : Interceptors.CallOptions Others :=
  Interceptors.mkCallOptions
    (Some (default ∅ (Interceptors.metadata options)))
    (Interceptors.others options).

(** The value of a key in optional metadata. *)
Definition entry {Others : Type} (key : string)
    (options : Interceptors.CallOptions Others) : option string :=
  Interceptors.metadata options ≫= (.!! key).

(** No slash occurs in [s]. *)
Definition slash_free (s : string) : bool := negb (JS.includes "/" s).

(** [s] ends with a slash, as every normalised folder path does. *)
Fixpoint is_folder (s : string) : bool :=
  match s with
  | EmptyString => false
  | String c EmptyString => Ascii.eqb c "/"
  | String _ s' => is_folder s'
  end.

(** The objects a list of calls deletes and stores, as container and key. *)
Definition deleted (ops : list Storage.Op) : list (string * string) :=
  omap (fun op => match op with
                  | Storage.ODelete c q => Some (c, q)
                  | _ => None
                  end) ops.

Definition stored (ops : list Storage.Op) : list (string * string) :=
  omap (fun op => match op with
                  | Storage.OStore c q _ _ => Some (c, q)
                  | _ => None
                  end) ops.

(** The documents a list of calls writes to the file collection. *)
Definition written (ops : list Storage.Op) : list Storage.FileFields :=
  omap (fun op => match op with
                  | Storage.OCreate doc => Some doc
                  | Storage.OFindByIdAndUpdate _ doc => Some doc
                  | _ => None
                  end) ops.

(** The metric calls among a list of calls. *)
Definition measured (ops : list Storage.Op) : list Storage.MetricCall :=
  omap (fun op => match op with
                  | Storage.OMetric m => Some m
                  | _ => None
                  end) ops.

(** The update keeps the name, the folder and the container of the file. *)
Definition same_place (file : Storage.File) (params : Storage.IFileParams) : Prop :=
  Storage.p_name params = Storage.file_name file
  /\ Storage.p_folder params = Storage.file_folder file
  /\ Storage.p_container params = Storage.file_container file.

(** Calling [handler] on the items in order, up to and with the first one it
    rejects: the calls made, and whether none was rejected. *)
Fixpoint until_rejected (handler : string -> bool -> bool)
    (items : list (string * bool)) : list (string * bool) * bool :=
  match items with
  | [] => ([], true)
  | (p, b) :: rest =>
      if handler p b
      then let (calls, ok) := until_rejected handler rest in ((p, b) :: calls, ok)
      else ([(p, b)], false)
  end.

(** [false] for every position but the last of [n], [true] for the last. *)
Definition last_only (n : nat) : list bool :=
  replicate (n - 1) false ++ [true].

(** * Properties *)

(** ** Strings *)

Section StringFacts.

Lemma append_nil (b : string) : EmptyString +:+ b = b.
Proof. reflexivity. Qed.

Lemma append_cons (c : ascii) (a b : string) :
  String c a +:+ b = String c (a +:+ b).
Proof. reflexivity. Qed.

Lemma append_empty_r (s : string) : s +:+ EmptyString = s.
Proof.
  induction s as [|c s IH]; [reflexivity |].
  now rewrite append_cons, IH.
Qed.

Lemma append_assoc (a b c : string) : (a +:+ b) +:+ c = a +:+ b +:+ c.
Proof.
  induction a as [|x a IH]; [reflexivity |].
  now rewrite !append_cons, IH.
Qed.

Lemma startsWith_spec (p s : string) :
  JS.startsWith p s = true <-> exists t, s = p +:+ t.
Proof.
  revert s; induction p as [|a p IH]; intros s; simpl.
  - split; [intros _; now exists s | reflexivity].
  - destruct s as [|b s].
    + split; [discriminate | intros [t Ht]; discriminate].
    + rewrite andb_true_iff, Ascii.eqb_eq, IH. split.
      * intros [-> [t ->]]. now exists t.
      * intros [t Ht]. rewrite append_cons in Ht. injection Ht as -> ->.
        split; [reflexivity | now exists t].
Qed.

Lemma includes_spec (p s : string) :
  JS.includes p s = true <-> exists a b, s = a +:+ p +:+ b.
Proof.
  induction s as [|c s IH]; simpl; rewrite orb_true_iff, startsWith_spec.
  - split.
    + intros [[t Ht] | H]; [| discriminate]. now exists EmptyString, t.
    + intros [a [b Hab]]. left. destruct a; [now exists b | discriminate].
  - rewrite IH. split.
    + intros [[t Ht] | [a [b Hab]]].
      * now exists EmptyString, t.
      * exists (String c a), b. now rewrite append_cons, Hab.
    + intros [a [b Hab]]. destruct a as [|x a].
      * left. now exists b.
      * right. rewrite append_cons in Hab. injection Hab as _ ->.
        now exists a, b.
Qed.

(** Looking for a single character. *)
Lemma includes_char_cons (c d : ascii) (s : string) :
  JS.includes (String c EmptyString) (String d s)
  = Ascii.eqb c d || JS.includes (String c EmptyString) s.
Proof. simpl. now rewrite andb_true_r. Qed.

Lemma includes_char_app (c : ascii) (a b : string) :
  JS.includes (String c EmptyString) (a +:+ b)
  = JS.includes (String c EmptyString) a || JS.includes (String c EmptyString) b.
Proof.
  induction a as [|x a IH].
  - destruct b; reflexivity.
  - rewrite append_cons, !includes_char_cons, IH. now rewrite orb_assoc.
Qed.

(** Two strings cut at the first occurrence of a character agree piecewise. *)
Lemma cut_at_char_inj (c : ascii) (a a' b b' : string) :
  JS.includes (String c EmptyString) a = false ->
  JS.includes (String c EmptyString) a' = false ->
  a +:+ String c b = a' +:+ String c b' ->
  a = a' /\ b = b'.
Proof.
  revert a'; induction a as [|x a IH]; intros [|x' a'] Ha Ha' E;
    rewrite ?append_cons, ?append_nil in E.
  - injection E as ->. split; reflexivity.
  - injection E as -> _. rewrite includes_char_cons, Ascii.eqb_refl in Ha'.
    discriminate.
  - injection E as -> _. rewrite includes_char_cons, Ascii.eqb_refl in Ha.
    discriminate.
  - injection E as -> E. rewrite includes_char_cons in Ha, Ha'.
    apply orb_false_elim in Ha as [_ Ha]. apply orb_false_elim in Ha' as [_ Ha'].
    destruct (IH a' Ha Ha' E) as [-> ->]. split; reflexivity.
Qed.

Lemma split_nonempty (c : ascii) (s : string) : JS.split c s <> [].
Proof.
  induction s as [|x s IH]; simpl; [discriminate |].
  destruct (Ascii.eqb x c); [discriminate |].
  destruct (JS.split c s); [contradiction | discriminate].
Qed.

(** A string without the separator is its own single segment. *)
Lemma split_no_sep (c : ascii) (a : string) :
  JS.includes (String c EmptyString) a = false -> JS.split c a = [a].
Proof.
  induction a as [|x a IH]; intros H; [reflexivity |].
  rewrite includes_char_cons in H. apply orb_false_elim in H as [Hx Ha].
  simpl. rewrite Ascii.eqb_sym, Hx, (IH Ha). reflexivity.
Qed.

(** The first separator ends the first segment; the rest is split again. *)
Lemma split_at_first_sep (c : ascii) (a b : string) :
  JS.includes (String c EmptyString) a = false ->
  JS.split c (a +:+ String c b) = a :: JS.split c b.
Proof.
  induction a as [|x a IH]; intros H.
  - rewrite append_nil. simpl. now rewrite Ascii.eqb_refl.
  - rewrite includes_char_cons in H. apply orb_false_elim in H as [Hx Ha].
    rewrite append_cons. simpl. rewrite Ascii.eqb_sym, Hx, (IH Ha). reflexivity.
Qed.

Lemma all_in_class_false (s : string) :
  JS.all_in_class s = false <->
  exists a c b, s = a +:+ String c b /\ JS.in_class_a_zA_Z c = false.
Proof.
  induction s as [|x s IH]; simpl.
  - split; [discriminate | intros (a & c & b & E & _); destruct a; discriminate].
  - rewrite andb_false_iff, IH. split.
    + intros [Hx | (a & c & b & -> & Hc)].
      * now exists EmptyString, x, s.
      * now exists (String x a), c, b.
    + intros (a & c & b & E & Hc). destruct a as [|y a];
        rewrite ?append_cons, ?append_nil in E.
      * injection E as -> _. now left.
      * injection E as _ ->. right. now exists a, c, b.
Qed.

End StringFacts.

(** ** The validator *)

Section Validator.

Lemma in_class_spec (c : ascii) :
  JS.in_class_a_zA_Z c = true <-> ascii_letter c.
Proof.
  unfold JS.in_class_a_zA_Z, ascii_letter.
  rewrite orb_true_iff, !andb_true_iff, !Nat.leb_le. tauto.
Qed.

Lemma in_class_false (c : ascii) :
  JS.in_class_a_zA_Z c = false <-> ~ ascii_letter c.
Proof.
  rewrite <- in_class_spec. destruct (JS.in_class_a_zA_Z c); split; intros H;
    (congruence || (exfalso; now apply H) || reflexivity).
Qed.

Lemma includes_colon_false (s : string) :
  JS.includes ":" s = false <-> ~ has_colon s.
Proof.
  unfold has_colon. rewrite <- includes_spec.
  destruct (JS.includes ":" s); split; intros H;
    (congruence || (exfalso; now apply H) || reflexivity).
Qed.

Lemma test_letters_only_false (r : string) :
  JS.test_letters_only r = false <-> r = EmptyString \/ has_non_letter r.
Proof.
  unfold has_non_letter. destruct r as [|c r].
  - simpl. split; [now left | reflexivity].
  - change (JS.test_letters_only (String c r)) with (JS.all_in_class (String c r)).
    rewrite all_in_class_false. split.
    + intros (a & x & b & E & Hx). right. exists a, x, b.
      split; [exact E | now apply in_class_false].
    + intros [E | (a & x & b & E & Hx)]; [discriminate |].
      exists a, x, b. split; [exact E | now apply in_class_false].
Qed.

Lemma checkRelation_total (s r o : string) :
  raises (checkRelation s r o) \/ checkRelation s r o = inr tt.
Proof.
  unfold checkRelation, raises.
  repeat match goal with
         | |- context [if ?b then _ else _] => destruct b
         end; eauto.
Qed.

Lemma checkRelation_raises (s r o : string) :
  raises (checkRelation s r o) <-> refused s r o.
Proof.
  unfold checkRelation, refused, raises.
  rewrite <- !includes_colon_false, <- test_letters_only_false.
  destruct (JS.includes ":" s); simpl; [| split; eauto].
  destruct (JS.includes ":" o); simpl; [| split; eauto].
  destruct (JS.test_letters_only r); simpl; [| split; eauto].
  destruct (String.eqb_spec s o) as [E | N].
  - split; eauto.
  - split.
    + intros [e He]. discriminate.
    + intros [H | [H | [H | H]]]; (discriminate || contradiction).
Qed.

End Validator.

(** C3.  [checkRelation] throws exactly when the subject has no colon, the
    object has no colon, the relation is empty or has a character that is
    not an ASCII letter, or subject and object are equal; on every other
    triple it returns, and what it returns is the unit value. *)
Theorem checkRelation_raises_iff_refused (subject relation object : string) :
  (raises (checkRelation subject relation object)
     <-> refused subject relation object)
  /\ (~ refused subject relation object
        <-> checkRelation subject relation object = inr tt).
Proof.
  split; [apply checkRelation_raises |].
  rewrite <- checkRelation_raises. split.
  - intros N. destruct (checkRelation_total subject relation object) as [R | R];
      [contradiction | exact R].
  - intros E [e He]. congruence.
Qed.

Lemma checkRelation_raises_iff_refused_witness :
  raises (checkRelation "user1" "owner" "doc:42")
  /\ ~ refused "user:1" "owner" "doc:42".
Proof.
  split.
  - apply (proj1 (checkRelation_raises_iff_refused "user1" "owner" "doc:42")).
    left. apply includes_colon_false. reflexivity.
  - apply (proj2 (checkRelation_raises_iff_refused "user:1" "owner" "doc:42")).
    reflexivity.
Defined.

(** ** The tuple encoding *)

Section TupleCodec.

Lemma computeRelationTuple_cut (s r o : string) :
  computeRelationTuple s r o = s +:+ String hash (r +:+ String at_sign o).
Proof. reflexivity. Qed.

Lemma separator_free_hash (s : string) :
  separator_free s = true -> JS.includes "#" s = false.
Proof.
  unfold separator_free. rewrite andb_true_iff, !negb_true_iff. tauto.
Qed.

Lemma separator_free_at (s : string) :
  separator_free s = true -> JS.includes "@" s = false.
Proof.
  unfold separator_free. rewrite andb_true_iff, !negb_true_iff. tauto.
Qed.

Lemma computeRelationTuple_inj (s r o s' r' o' : string) :
  JS.includes "#" s = false -> JS.includes "#" s' = false ->
  JS.includes "@" r = false -> JS.includes "@" r' = false ->
  computeRelationTuple s r o = computeRelationTuple s' r' o' ->
  s = s' /\ r = r' /\ o = o'.
Proof.
  intros Hs Hs' Hr Hr' E. rewrite !computeRelationTuple_cut in E.
  destruct (cut_at_char_inj hash s s' _ _ Hs Hs' E) as [-> E'].
  destruct (cut_at_char_inj at_sign r r' _ _ Hr Hr' E') as [-> ->].
  repeat split.
Qed.

End TupleCodec.

(** C5.  For a triple the validator accepts (so subject and object differ),
    the computed tuple is exactly subject, [#], relation, [@], object; equal
    inputs give equal outputs; and the relation-tuple and permission-tuple
    encoders agree on every input. *)
Theorem computeTuple_exact :
  (forall subject relation object,
      checkRelation subject relation object = inr tt ->
      subject <> object ->
      computeRelationTuple subject relation object
      = subject +:+ "#" +:+ relation +:+ "@" +:+ object)
  /\ (forall s r o s' r' o',
         (s, r, o) = (s', r', o') ->
         computeRelationTuple s r o = computeRelationTuple s' r' o')
  /\ (forall subject relation object,
         computePermissionTuple subject relation object
         = computeRelationTuple subject relation object).
Proof.
  split; [| split].
  - intros subject relation object _ _. reflexivity.
  - intros s r o s' r' o' E. injection E as -> -> ->. reflexivity.
  - intros subject relation object. reflexivity.
Qed.

Lemma computeTuple_exact_witness :
  computeRelationTuple "user:1" "owner" "doc:42" = "user:1#owner@doc:42"
  /\ computeRelationTuple "user:1" "owner" "doc:42"
     = computeRelationTuple "user:1" "owner" "doc:42".
Proof.
  split.
  - apply (proj1 computeTuple_exact "user:1" "owner" "doc:42");
      [reflexivity | discriminate].
  - apply (proj1 (proj2 computeTuple_exact)). reflexivity.
Defined.

(** C8.  On triples whose three components hold neither [#] nor [@] the
    encoding is injective; without that restriction it is not: two
    different triples, one with a [#] inside an identifier, have the same
    encoding. *)
Theorem computeTuple_injective_on_separator_free :
  (forall s r o s' r' o',
      separator_free s = true -> separator_free r = true ->
      separator_free o = true ->
      separator_free s' = true -> separator_free r' = true ->
      separator_free o' = true ->
      computeRelationTuple s r o = computeRelationTuple s' r' o' ->
      (s, r, o) = (s', r', o'))
  /\ (exists s r o s' r' o',
         (s, r, o) <> (s', r', o')
         /\ (separator_free s = false \/ separator_free r = false
             \/ separator_free o = false \/ separator_free s' = false
             \/ separator_free r' = false \/ separator_free o' = false)
         /\ computeRelationTuple s r o = computeRelationTuple s' r' o').
Proof.
  split.
  - intros s r o s' r' o' Hs Hr _ Hs' Hr' _ E.
    destruct (computeRelationTuple_inj s r o s' r' o') as (-> & -> & ->);
      auto using separator_free_hash, separator_free_at.
  - exists "user:a#b", "c", "doc:1", "user:a", "b#c", "doc:1".
    split; [discriminate | split; [left; reflexivity | reflexivity]].
Qed.

Lemma computeTuple_injective_on_separator_free_witness :
  ("user:1", "owner", "doc:42") = ("user:1", "owner", "doc:42").
Proof.
  apply (proj1 computeTuple_injective_on_separator_free
           "user:1" "owner" "doc:42" "user:1" "owner" "doc:42");
    reflexivity.
Defined.

(** ** The object index *)

Section ObjectIndexFacts.

Lemma no_colon_includes (s : string) :
  no_colon s = true -> JS.includes (String colon EmptyString) s = false.
Proof. unfold no_colon. now rewrite negb_true_iff. Qed.

Lemma colon_tail_first_segment (id tail : string) :
  no_colon id = true -> colon_tail tail = true ->
  exists more, JS.split colon (id +:+ tail) = id :: more.
Proof.
  intros Hid Ht. destruct tail as [|c tail].
  - rewrite append_empty_r, (split_no_sep _ _ (no_colon_includes _ Hid)).
    now exists [].
  - simpl in Ht. apply Ascii.eqb_eq in Ht as ->.
    rewrite (split_at_first_sep _ _ _ (no_colon_includes _ Hid)).
    now exists (JS.split colon tail).
Qed.

(** The first two segments of [ty:id] followed by nothing or by a colon
    and more text. *)
Lemma split_type_id (ty id tail : string) :
  no_colon ty = true -> no_colon id = true -> colon_tail tail = true ->
  JS.split colon (ty +:+ ":" +:+ id +:+ tail) !! 0%nat = Some ty
  /\ JS.split colon (ty +:+ ":" +:+ id +:+ tail) !! 1%nat = Some id.
Proof.
  intros Hty Hid Ht.
  change (ty +:+ ":" +:+ id +:+ tail) with (ty +:+ String colon (id +:+ tail)).
  rewrite (split_at_first_sep _ _ _ (no_colon_includes _ Hty)).
  destruct (colon_tail_first_segment id tail Hid Ht) as [more ->].
  split; reflexivity.
Qed.

Lemma wildcard_false (role object : string) :
  role <> "*" -> object <> "*" ->
  String.eqb role "*" || String.eqb object "*" = false.
Proof.
  intros Hr Ho. apply orb_false_intro; now apply String.eqb_neq.
Qed.

Lemma wildcard_true (role object : string) :
  role = "*" \/ object = "*" ->
  String.eqb role "*" || String.eqb object "*" = true.
Proof.
  intros [-> | ->]; [reflexivity |]. rewrite String.eqb_refl. apply orb_true_r.
Qed.

End ObjectIndexFacts.

(** C1, as the code has it.  The identifier is split on every colon and the
    first two segments are kept: for [ty:id], followed by nothing or by a
    colon and more text, the type is [ty] and the id is [id]; the further
    colon and what follows it are dropped.  The same holds for the entity
    fields of an object when the role is not the wildcard. *)
Theorem constructObjectIndex_keeps_two_segments
    (ty id tail permission role other : string) (tree : list string) :
  no_colon ty = true -> no_colon id = true -> colon_tail tail = true ->
  let ident := ty +:+ ":" +:+ id +:+ tail in
  (oi_subjectType (constructObjectIndex ident permission role other tree) = Some ty
   /\ oi_subjectId (constructObjectIndex ident permission role other tree) = Some id)
  /\ (role <> "*" ->
      oi_entityType (constructObjectIndex other permission role ident tree) = Some ty
      /\ oi_entityId (constructObjectIndex other permission role ident tree) = Some id).
Proof.
  intros Hty Hid Ht ident.
  destruct (split_type_id ty id tail Hty Hid Ht) as [H0 H1]. fold ident in H0, H1.
  split; [split; assumption |].
  intros Hrole. unfold constructObjectIndex; simpl.
  assert (Hident : ident <> "*").
  { unfold ident. destruct ty as [|c [|c' ty]]; discriminate. }
  rewrite (wildcard_false _ _ Hrole Hident). split; assumption.
Qed.

Lemma constructObjectIndex_keeps_two_segments_witness :
  (oi_subjectType (constructObjectIndex "user:abc:def" "read" "viewer" "doc:42" [])
   = Some "user"
   /\ oi_subjectId (constructObjectIndex "user:abc:def" "read" "viewer" "doc:42" [])
      = Some "abc")
  /\ ("viewer" <> "*" ->
      oi_entityType (constructObjectIndex "doc:42" "read" "viewer" "user:abc:def" [])
      = Some "user"
      /\ oi_entityId (constructObjectIndex "doc:42" "read" "viewer" "user:abc:def" [])
         = Some "abc").
Proof.
  apply (constructObjectIndex_keeps_two_segments
           "user" "abc" ":def" "read" "viewer" "doc:42" []); reflexivity.
Defined.

(** C1, as stated, fails: for subject [user:abc:def] the id is [abc], not
    [abc:def]. *)
Lemma constructObjectIndex_first_colon_only_fails :
  ~ (oi_subjectType (constructObjectIndex "user:abc:def" "read" "viewer" "doc:42" [])
     = Some "user"
     /\ oi_subjectId (constructObjectIndex "user:abc:def" "read" "viewer" "doc:42" [])
        = Some "abc:def").
Proof. intros [_ H]. vm_compute in H. discriminate H. Qed.

(** C4, as the code has it.  When the role or the object is the wildcard,
    the entity, its id, its type and the relation are all the wildcard,
    whatever the object.  Otherwise the entity is the object, [#], the role
    and the relation is the role; the type is the text of the object before
    its first colon and the id is the text between its first and its second
    colon, up to the end when there is no second one, so the id is the id
    part only for an object with a single colon; for an object without a
    colon the type is the whole object and the id is undefined. *)
Theorem constructObjectIndex_wildcard_or_segments
    (subject permission role object : string) (tree : list string) :
  let e := constructObjectIndex subject permission role object tree in
  (role = "*" \/ object = "*" ->
   oi_entity e = "*" /\ oi_entityId e = Some "*"
   /\ oi_entityType e = Some "*" /\ oi_relation e = "*")
  /\ (role <> "*" -> object <> "*" ->
      oi_entity e = object +:+ "#" +:+ role
      /\ oi_relation e = role
      /\ (forall ty id tail,
             no_colon ty = true -> no_colon id = true ->
             colon_tail tail = true ->
             object = ty +:+ ":" +:+ id +:+ tail ->
             oi_entityType e = Some ty /\ oi_entityId e = Some id)
      /\ (no_colon object = true ->
          oi_entityType e = Some object /\ oi_entityId e = None)).
Proof.
  intros e; subst e; unfold constructObjectIndex; simpl. split.
  - intros H. rewrite (wildcard_true _ _ H). repeat split.
  - intros Hr Ho. rewrite (wildcard_false _ _ Hr Ho).
    do 2 (split; [reflexivity |]). split.
    + intros ty id tail Hty Hid Ht ->.
      exact (split_type_id ty id tail Hty Hid Ht).
    + intros Hno. rewrite (split_no_sep _ _ (no_colon_includes _ Hno)).
      split; reflexivity.
Qed.

Lemma constructObjectIndex_wildcard_or_segments_witness :
  (let e := constructObjectIndex "user:1" "read" "*" "doc:42" ["owner"] in
   oi_entity e = "*" /\ oi_entityId e = Some "*"
   /\ oi_entityType e = Some "*" /\ oi_relation e = "*")
  /\ (let e := constructObjectIndex "user:1" "read" "viewer" "doc:a:b" ["owner"] in
      oi_entityType e = Some "doc" /\ oi_entityId e = Some "a")
  /\ (let e := constructObjectIndex "user:1" "read" "viewer" "doc42" ["owner"] in
      oi_entityType e = Some "doc42" /\ oi_entityId e = None).
Proof.
  split; [| split].
  - apply (proj1 (constructObjectIndex_wildcard_or_segments
                    "user:1" "read" "*" "doc:42" ["owner"])).
    left; reflexivity.
  - apply (proj1 (proj2 (proj2 (proj2 (constructObjectIndex_wildcard_or_segments
                    "user:1" "read" "viewer" "doc:a:b" ["owner"])
                    ltac:(discriminate) ltac:(discriminate))))
             "doc" "a" ":b"); reflexivity.
  - apply (proj2 (proj2 (proj2 (proj2 (constructObjectIndex_wildcard_or_segments
                    "user:1" "read" "viewer" "doc42" ["owner"])
                    ltac:(discriminate) ltac:(discriminate))))).
    reflexivity.
Defined.

(** C4, as stated, fails: for the object [doc:a:b] with a role that is not
    the wildcard, the entity id is [a], not the id part [a:b]. *)
Lemma constructObjectIndex_entity_id_part_fails :
  ~ (oi_entityType (constructObjectIndex "user:1" "read" "viewer" "doc:a:b" [])
     = Some "doc"
     /\ oi_entityId (constructObjectIndex "user:1" "read" "viewer" "doc:a:b" [])
        = Some "a:b").
Proof. intros [_ H]. vm_compute in H. discriminate H. Qed.

(** C9.  The subject-side fields and the inheritance tree do not depend on
    the role or the object: two calls that agree on subject, permission and
    inheritance tree agree on [subject], [subjectId], [subjectType],
    [subjectPermission] and [inheritanceTree], and the tree is the one
    passed in. *)
Theorem constructObjectIndex_subject_side_frame
    (subject permission role object role' object' : string) (tree : list string) :
  let e := constructObjectIndex subject permission role object tree in
  let e' := constructObjectIndex subject permission role' object' tree in
  oi_subject e = oi_subject e'
  /\ oi_subjectId e = oi_subjectId e'
  /\ oi_subjectType e = oi_subjectType e'
  /\ oi_subjectPermission e = oi_subjectPermission e'
  /\ oi_inheritanceTree e = oi_inheritanceTree e'
  /\ oi_subject e = subject +:+ "#" +:+ permission
  /\ oi_subjectId e = JS.split colon subject !! 1%nat
  /\ oi_subjectType e = JS.split colon subject !! 0%nat
  /\ oi_subjectPermission e = permission
  /\ oi_inheritanceTree e = tree.
Proof. repeat split. Qed.

(** ** The rule cache *)

Section RuleCacheFacts.
Import State RuleCache.

Lemma run_storeResolution (t : string) (d : bool) (now : Z)
    (st : gmap string Entry) :
  run now st (storeResolution t d)
  = (tt,
     <[cache_key t := mkEntry (JS.toString d) (now + 2000)]> st,
     [SetKey (cache_key t) (JS.toString d) 2000]).
Proof. reflexivity. Qed.

Lemma run_findResolution (t : string) (now : Z) (st : gmap string Entry) :
  run now st (findResolution t)
  = (match get now (cache_key t) st with
     | Some v => Hit (String.eqb v "true")
     | None => Miss
     end,
     st,
     [GetKey (cache_key t)]).
Proof.
  unfold findResolution. simpl. fold (cache_key t).
  destruct (get now (cache_key t) st); reflexivity.
Qed.

Lemma get_after_set (now later : Z) (k v : string) (ttl : Z)
    (st : gmap string Entry) :
  get later k (set_with_expiry now k v ttl st)
  = if later <? now + ttl then Some v else None.
Proof.
  unfold get, set_with_expiry. now rewrite lookup_insert_eq.
Qed.

Lemma toString_eqb_true (d : bool) : String.eqb (JS.toString d) "true" = d.
Proof. destruct d; reflexivity. Qed.

Lemma find_after_store (t : string) (d : bool) (now later : Z)
    (st : gmap string Entry) :
  result (run later (final (run now st (storeResolution t d))) (findResolution t))
  = if later <? now + 2000 then Hit d else Miss.
Proof.
  rewrite run_storeResolution, run_findResolution. unfold result, final; simpl.
  fold (set_with_expiry now (cache_key t) (JS.toString d) 2000 st).
  rewrite get_after_set. destruct (later <? now + 2000); [| reflexivity].
  now rewrite toString_eqb_true.
Qed.

End RuleCacheFacts.

(** C6.  A lookup answers one of three things, and a miss is never the hit
    of a stored false: on a key the service does not hold, and on one whose
    entry has expired, it answers [Miss], which differs from [Hit false]; a
    lookup made less than 2000 ms after [storeResolution t d] answers
    [Hit d], for [d] true and for [d] false; one made 2000 ms after it or
    later answers [Miss]. *)
Theorem findResolution_tri_state
    (t : string) (d : bool) (now later : Z) (st : gmap string State.Entry) :
  Miss <> Hit false
  /\ (st !! cache_key t = None ->
      State.result (State.run now st (RuleCache.findResolution t)) = Miss)
  /\ (forall e, st !! cache_key t = Some e -> State.expires_at e <= now ->
      State.result (State.run now st (RuleCache.findResolution t)) = Miss)
  /\ (now <= later < now + 2000 ->
      State.result
        (State.run later
           (State.final (State.run now st (RuleCache.storeResolution t d)))
           (RuleCache.findResolution t)) = Hit d)
  /\ (now + 2000 <= later ->
      State.result
        (State.run later
           (State.final (State.run now st (RuleCache.storeResolution t d)))
           (RuleCache.findResolution t)) = Miss).
Proof.
  split; [discriminate |]. split; [| split; [| split]].
  - intros H. rewrite run_findResolution. unfold State.get. now rewrite H.
  - intros e H Hexp. rewrite run_findResolution. unfold State.get. rewrite H.
    destruct (Z.ltb_spec now (State.expires_at e)); [lia | reflexivity].
  - intros H. rewrite find_after_store.
    destruct (Z.ltb_spec later (now + 2000)); [reflexivity | lia].
  - intros H. rewrite find_after_store.
    destruct (Z.ltb_spec later (now + 2000)); [lia | reflexivity].
Qed.

Lemma findResolution_tri_state_witness :
  (State.result
     (State.run 1999
        (State.final (State.run 0 ∅ (RuleCache.storeResolution "user:1#owner@doc:42" false)))
        (RuleCache.findResolution "user:1#owner@doc:42")) = Hit false)
  /\ (State.result
        (State.run 1999
           (State.final (State.run 0 ∅ (RuleCache.storeResolution "user:1#owner@doc:42" true)))
           (RuleCache.findResolution "user:1#owner@doc:42")) = Hit true)
  /\ (State.result
        (State.run 2000
           (State.final (State.run 0 ∅ (RuleCache.storeResolution "user:1#owner@doc:42" false)))
           (RuleCache.findResolution "user:1#owner@doc:42")) = Miss)
  /\ State.result (State.run 0 ∅ (RuleCache.findResolution "user:1#owner@doc:42")) = Miss
  /\ State.result
       (State.run 7 {[ cache_key "user:1#owner@doc:42" := State.mkEntry "false" 7 ]}
          (RuleCache.findResolution "user:1#owner@doc:42")) = Miss.
Proof.
  split; [| split; [| split; [| split]]].
  - apply (findResolution_tri_state "user:1#owner@doc:42" false 0 1999 ∅). lia.
  - apply (findResolution_tri_state "user:1#owner@doc:42" true 0 1999 ∅). lia.
  - apply (findResolution_tri_state "user:1#owner@doc:42" false 0 2000 ∅). lia.
  - apply (proj1 (proj2 (findResolution_tri_state "user:1#owner@doc:42" false 0 0 ∅))).
    reflexivity.
  - apply (proj1 (proj2 (proj2
             (findResolution_tri_state "user:1#owner@doc:42" false 7 7
                {[ cache_key "user:1#owner@doc:42" := State.mkEntry "false" 7 ]})))
             (State.mkEntry "false" 7)); [reflexivity | simpl; lia].
Defined.

(** C7.  [storeResolution t d] issues one call to the service and no other:
    a write under the key [ruleCache:] followed by [t], of the string [true]
    when [d] is true and [false] when it is false, with an expiry of 2000;
    afterwards the service holds exactly that entry for the key, whatever it
    held for it before, and every other key is as it was. *)
Theorem storeResolution_one_write
    (t : string) (d : bool) (now : Z) (st : gmap string State.Entry) :
  let r := State.run now st (RuleCache.storeResolution t d) in
  State.calls r
  = [State.SetKey ("ruleCache:" +:+ t) (if d then "true" else "false") 2000]
  /\ State.final r !! ("ruleCache:" +:+ t)
     = Some (State.mkEntry (if d then "true" else "false") (now + 2000))
  /\ State.final r
     = <["ruleCache:" +:+ t
         := State.mkEntry (if d then "true" else "false") (now + 2000)]> st
  /\ State.final r = State.final (State.run now (delete ("ruleCache:" +:+ t) st)
                                    (RuleCache.storeResolution t d)).
Proof.
  intros r; subst r. rewrite !run_storeResolution. unfold State.calls, State.final.
  simpl. unfold cache_key. destruct d; simpl;
    (split; [reflexivity |]; split; [apply lookup_insert_eq |];
     split; [reflexivity |]; now rewrite insert_delete_eq).
Qed.

(** C10.  A lookup compares the stored text with [true] exactly: for a
    value [v] the service answers for the key, the lookup is [Hit true] if
    and only if [v] is the string [true], and [Hit false] for any other
    value. *)
Theorem findResolution_exact_comparison
    (t v : string) (now : Z) (st : gmap string State.Entry) :
  State.get now (cache_key t) st = Some v ->
  let r := State.result (State.run now st (RuleCache.findResolution t)) in
  (r = Hit true <-> v = "true")
  /\ (v <> "true" -> r = Hit false).
Proof.
  intros H r; subst r. rewrite run_findResolution, H. unfold State.result; simpl.
  destruct (String.eqb_spec v "true") as [E | N].
  - split; [tauto | contradiction].
  - split; [| reflexivity]. split; [discriminate | contradiction].
Qed.

Lemma findResolution_exact_comparison_witness :
  State.result
    (State.run 0 {[ cache_key "t" := State.mkEntry "True" 2000 ]}
       (RuleCache.findResolution "t")) = Hit false
  /\ State.result
       (State.run 0 {[ cache_key "t" := State.mkEntry "TRUE" 2000 ]}
          (RuleCache.findResolution "t")) = Hit false
  /\ State.result
       (State.run 0 {[ cache_key "t" := State.mkEntry "1" 2000 ]}
          (RuleCache.findResolution "t")) = Hit false
  /\ State.result
       (State.run 0 {[ cache_key "t" := State.mkEntry "true" 2000 ]}
          (RuleCache.findResolution "t")) = Hit true.
Proof.
  split; [| split; [| split]].
  - apply (findResolution_exact_comparison "t" "True" 0
             {[ cache_key "t" := State.mkEntry "True" 2000 ]});
      [reflexivity | discriminate].
  - apply (findResolution_exact_comparison "t" "TRUE" 0
             {[ cache_key "t" := State.mkEntry "TRUE" 2000 ]});
      [reflexivity | discriminate].
  - apply (findResolution_exact_comparison "t" "1" 0
             {[ cache_key "t" := State.mkEntry "1" 2000 ]});
      [reflexivity | discriminate].
  - apply (findResolution_exact_comparison "t" "true" 0
             {[ cache_key "t" := State.mkEntry "true" 2000 ]});
      reflexivity.
Defined.

(** ** The access-list queries *)

Section QueryText.
Import SqlText.

Lemma occurs_in_here (p rest : string) : occurs_in p (p +:+ rest).
Proof. now exists EmptyString, rest. Qed.

Lemma occurs_in_here3 (a x b rest : string) :
  occurs_in (a +:+ x +:+ b) (a +:+ x +:+ b +:+ rest).
Proof. exists EmptyString, rest. now rewrite append_nil, !append_assoc. Qed.

Lemma occurs_in_cons (p : string) (c : ascii) (s : string) :
  occurs_in p s -> occurs_in p (String c s).
Proof. intros (a & b & ->). now exists (String c a), b. Qed.

Lemma occurs_in_app (p x s : string) :
  occurs_in p s -> occurs_in p (x +:+ s).
Proof.
  intros (a & b & ->). exists (x +:+ a), b. now rewrite append_assoc.
Qed.

Lemma ends_with_here (p : string) : ends_with p p.
Proof. now exists EmptyString. Qed.

Lemma ends_with_cons (p : string) (c : ascii) (s : string) :
  ends_with p s -> ends_with p (String c s).
Proof. intros (a & ->). now exists (String c a). Qed.

Lemma ends_with_app (p x s : string) :
  ends_with p s -> ends_with p (x +:+ s).
Proof. intros (a & ->). exists (x +:+ a). now rewrite append_assoc. Qed.

End QueryText.

(** Character by character through a template, past the interpolated
    strings, until the text sought starts. *)
Ltac find_occurrence :=
  first [ refine (occurs_in_here _ _)
        | apply occurs_in_cons; find_occurrence
        | apply occurs_in_app; find_occurrence ].

Ltac find_occurrence_around a x b :=
  first [ refine (occurs_in_here3 a x b _)
        | apply occurs_in_cons; find_occurrence_around a x b
        | apply occurs_in_app; find_occurrence_around a x b ].

Ltac find_ending :=
  first [ refine (ends_with_here _)
        | apply ends_with_cons; find_ending
        | apply ends_with_app; find_ending ].

Section QueryFacts.
Import SqlText.
Variables objectTypeCollection computedTuple subject objectType action : string.

#[local] Arguments String.append : simpl nomatch.

Let pg :=
  getPostgresAccessListQuery objectTypeCollection computedTuple subject
    objectType action.
Let sq :=
  getSQLAccessListQuery objectTypeCollection computedTuple subject
    objectType action.

(** The quoted-identifier text reads from the collection, the actor
    index, the object index and the permission tuples. *)
Lemma postgres_relations :
  occurs_in ("FROM " +:+ dq +:+ objectTypeCollection +:+ dq) pg
  /\ occurs_in ("FROM " +:+ dq +:+ "cnd_ActorIndex" +:+ dq) pg
  /\ occurs_in ("FROM " +:+ dq +:+ "cnd_ObjectIndex" +:+ dq) pg
  /\ occurs_in ("FROM " +:+ dq +:+ "cnd_Permission" +:+ dq) pg.
Proof.
  subst pg. unfold getPostgresAccessListQuery, nl, dq. simpl.
  split; [| split; [| split]].
  - find_occurrence_around ("FROM " +:+ dq) objectTypeCollection dq.
  - find_occurrence.
  - find_occurrence.
  - find_occurrence.
Qed.

(** So does the bare-identifier text. *)
Lemma sql_relations :
  occurs_in ("FROM " +:+ objectTypeCollection +:+ nl) sq
  /\ occurs_in ("FROM cnd_ActorIndex" +:+ nl) sq
  /\ occurs_in ("FROM cnd_ObjectIndex" +:+ nl) sq
  /\ occurs_in ("FROM cnd_Permission" +:+ nl) sq.
Proof.
  subst sq. unfold getSQLAccessListQuery, nl, dq. simpl.
  split; [| split; [| split]].
  - find_occurrence_around "FROM " objectTypeCollection nl.
  - find_occurrence.
  - find_occurrence.
  - find_occurrence.
Qed.

(** Both match the computed tuple as a prefix: the tuple, then [%]. *)
Lemma prefix_match_pattern :
  occurs_in (dq +:+ "computedTuple" +:+ dq +:+ " LIKE '" +:+ computedTuple +:+ "%'") pg
  /\ occurs_in ("computedTuple LIKE '" +:+ computedTuple +:+ "%'") sq.
Proof.
  subst pg sq. unfold getPostgresAccessListQuery, getSQLAccessListQuery, nl, dq.
  simpl. split.
  - find_occurrence_around
      (dq +:+ "computedTuple" +:+ dq +:+ " LIKE '") computedTuple "%'".
  - find_occurrence_around "computedTuple LIKE '" computedTuple "%'".
Qed.

(** The last join predicate of the bare-identifier text, whatever the
    inputs. *)
Lemma sql_last_predicate :
  ends_with
    ("') objects" +:+ nl +:+
     "                              ON actors.entity = obj.entity OR obj.entity = '*';")
    sq.
Proof.
  subst sq. unfold getSQLAccessListQuery, nl, dq. simpl. find_ending.
Qed.

End QueryFacts.

(** C2.  Both texts read the same four relations and match the computed
    tuple with the same trailing [%], for all inputs; but the join
    predicates do not both use bound names.  The bare-identifier text names
    its last row source [objects] and its last predicate reads [obj.entity]:
    for collection [Doc], tuple [user:1#read@Doc], subject [user:1], type
    [Doc] and action [read], every qualifier of the quoted-identifier text
    is bound in it, while the bare-identifier text uses the qualifier [obj]
    and binds no row source of that name. *)
Theorem sql_join_predicate_unbound_alias :
  (forall objectTypeCollection computedTuple subject objectType action,
      let pg := getPostgresAccessListQuery objectTypeCollection computedTuple
                  subject objectType action in
      let sq := getSQLAccessListQuery objectTypeCollection computedTuple
                  subject objectType action in
      (SqlText.occurs_in ("FROM " +:+ dq +:+ objectTypeCollection +:+ dq) pg
       /\ SqlText.occurs_in ("FROM " +:+ dq +:+ "cnd_ActorIndex" +:+ dq) pg
       /\ SqlText.occurs_in ("FROM " +:+ dq +:+ "cnd_ObjectIndex" +:+ dq) pg
       /\ SqlText.occurs_in ("FROM " +:+ dq +:+ "cnd_Permission" +:+ dq) pg)
      /\ (SqlText.occurs_in ("FROM " +:+ objectTypeCollection +:+ nl) sq
          /\ SqlText.occurs_in ("FROM cnd_ActorIndex" +:+ nl) sq
          /\ SqlText.occurs_in ("FROM cnd_ObjectIndex" +:+ nl) sq
          /\ SqlText.occurs_in ("FROM cnd_Permission" +:+ nl) sq)
      /\ SqlText.occurs_in
           (dq +:+ "computedTuple" +:+ dq +:+ " LIKE '" +:+ computedTuple +:+ "%'") pg
      /\ SqlText.occurs_in ("computedTuple LIKE '" +:+ computedTuple +:+ "%'") sq
      /\ SqlText.ends_with
           ("') objects" +:+ nl +:+
            "                              ON actors.entity = obj.entity OR obj.entity = '*';")
           sq)
  /\ (let pg := getPostgresAccessListQuery "Doc" "user:1#read@Doc" "user:1" "Doc" "read" in
      let sq := getSQLAccessListQuery "Doc" "user:1#read@Doc" "user:1" "Doc" "read" in
      SqlText.sources pg = ["Doc"; "cnd_ActorIndex"; "cnd_ObjectIndex"; "cnd_Permission"]
      /\ SqlText.sources sq = ["Doc"; "cnd_Permission"; "cnd_ActorIndex"; "cnd_ObjectIndex"]
      /\ SqlText.qualifiers pg = ["s"; "obj"; "actors"; "obj"; "obj"; "idx"; "s"]
      /\ SqlText.bound pg
         = ["Doc"; "s"; "cnd_ActorIndex"; "actors"; "cnd_ObjectIndex"; "obj";
            "cnd_Permission"; "idx"]
      /\ SqlText.all_bound pg = true
      /\ SqlText.qualifiers sq = ["Doc"; "permissions"; "Doc"; "actors"; "obj"; "obj"]
      /\ SqlText.bound sq
         = ["Doc"; "cnd_Permission"; "permissions"; "cnd_ActorIndex"; "actors";
            "cnd_ObjectIndex"; "objects"]
      /\ SqlText.all_bound sq = false).
Proof.
  split.
  - intros c t s ty a pg sq.
    split; [apply postgres_relations |].
    split; [apply sql_relations |].
    split; [apply prefix_match_pattern |].
    split; [apply prefix_match_pattern | apply sql_last_predicate].
  - vm_compute. repeat split.
Qed.


(** * Further properties *)

(** ** The validator and the encoding together *)

Section ValidatedTuples.

Lemma includes_colon_true (s : string) :
  JS.includes ":" s = true <-> has_colon s.
Proof. apply includes_spec. Qed.

Lemma test_letters_only_true (r : string) :
  JS.test_letters_only r = true <-> ~ (r = EmptyString \/ has_non_letter r).
Proof.
  rewrite <- test_letters_only_false.
  destruct (JS.test_letters_only r); split; intros H;
    (congruence || (exfalso; now apply H) || reflexivity).
Qed.

(** A string of letters holds no character from outside the class. *)
Lemma all_in_class_excludes (c : ascii) (r : string) :
  JS.in_class_a_zA_Z c = false -> JS.all_in_class r = true ->
  JS.includes (String c EmptyString) r = false.
Proof.
  intros Hc. induction r as [|x r IH]; intros H; [reflexivity |].
  simpl in H. apply andb_true_iff in H as [Hx Hr].
  rewrite includes_char_cons, (IH Hr), orb_false_r.
  apply Ascii.eqb_neq. intros ->. congruence.
Qed.

Lemma accepted_relation_letters (s r o : string) :
  checkRelation s r o = inr tt -> JS.all_in_class r = true.
Proof.
  unfold checkRelation.
  destruct (JS.includes ":" s); simpl; [| discriminate].
  destruct (JS.includes ":" o); simpl; [| discriminate].
  destruct r as [|c r]; simpl; [discriminate |].
  destruct (JS.in_class_a_zA_Z c && JS.all_in_class r); simpl;
    [reflexivity | discriminate].
Qed.

Lemma accepted_has_colons (s r o : string) :
  checkRelation s r o = inr tt -> has_colon s /\ has_colon o.
Proof.
  unfold checkRelation. rewrite <- !includes_colon_true.
  destruct (JS.includes ":" s); simpl; [| discriminate].
  destruct (JS.includes ":" o); simpl; [| discriminate].
  intros _. split; reflexivity.
Qed.

End ValidatedTuples.

(** X1.  The message of the error names the first check that fails, in the
    order subject, object, relation, difference: a later defect is reported
    only when every earlier check passes. *)
Theorem checkRelation_reports_first_failure (subject relation object : string) :
  (checkRelation subject relation object
   = inl (Err "Subject must be a valid resource identifier")
   <-> ~ has_colon subject)
  /\ (checkRelation subject relation object
      = inl (Err "Object must be a valid resource identifier")
      <-> has_colon subject /\ ~ has_colon object)
  /\ (checkRelation subject relation object
      = inl (Err "Relation must be a plain string")
      <-> has_colon subject /\ has_colon object
          /\ (relation = EmptyString \/ has_non_letter relation))
  /\ (checkRelation subject relation object
      = inl (Err "Subject and object must be different")
      <-> has_colon subject /\ has_colon object
          /\ ~ (relation = EmptyString \/ has_non_letter relation)
          /\ subject = object).
Proof.
  unfold checkRelation.
  rewrite <- !includes_colon_false, <- !includes_colon_true,
    <- test_letters_only_true, <- test_letters_only_false.
  destruct (JS.includes ":" subject), (JS.includes ":" object),
    (JS.test_letters_only relation), (String.eqb_spec subject object);
    simpl; repeat split; intros; try discriminate; try tauto;
    repeat match goal with H : _ /\ _ |- _ => destruct H end;
    try discriminate; try contradiction.
Qed.

Lemma checkRelation_reports_first_failure_witness :
  checkRelation "user1" "own3r" "user1"
  = inl (Err "Subject must be a valid resource identifier")
  /\ checkRelation "user:1" "own3r" "doc42"
     = inl (Err "Object must be a valid resource identifier").
Proof.
  split.
  - apply (proj1 (checkRelation_reports_first_failure "user1" "own3r" "user1")).
    apply includes_colon_false. reflexivity.
  - apply (proj1 (proj2 (checkRelation_reports_first_failure "user:1" "own3r" "doc42"))).
    split; [apply includes_colon_true | apply includes_colon_false]; reflexivity.
Defined.

(** X2.  Triples the validator accepts are encoded injectively as soon as
    the subjects hold no [#]: an accepted relation is letters only, so it
    holds neither separator, and the objects may hold anything.  The
    condition on the subjects cannot be dropped: two accepted triples whose
    first subject holds a [#] have the same encoding. *)
Theorem accepted_tuples_injective :
  (forall s r o s' r' o',
      checkRelation s r o = inr tt -> checkRelation s' r' o' = inr tt ->
      JS.includes "#" s = false -> JS.includes "#" s' = false ->
      computeRelationTuple s r o = computeRelationTuple s' r' o' ->
      (s, r, o) = (s', r', o'))
  /\ (exists s r o s' r' o',
         checkRelation s r o = inr tt /\ checkRelation s' r' o' = inr tt
         /\ (s, r, o) <> (s', r', o')
         /\ computeRelationTuple s r o = computeRelationTuple s' r' o').
Proof.
  split.
  - intros s r o s' r' o' V V' Hs Hs' E.
    destruct (computeRelationTuple_inj s r o s' r' o') as (-> & -> & ->);
      auto; apply all_in_class_excludes;
      (reflexivity || eapply accepted_relation_letters; eassumption).
  - exists "user:1#owner@team:2", "member", "doc:42",
      "user:1", "owner", "team:2#member@doc:42".
    repeat split; discriminate.
Qed.

Lemma accepted_tuples_injective_witness :
  ("user:1", "owner", "doc:4#2@x") = ("user:1", "owner", "doc:4#2@x").
Proof.
  apply (proj1 accepted_tuples_injective
           "user:1" "owner" "doc:4#2@x" "user:1" "owner" "doc:4#2@x");
    reflexivity.
Defined.

(** ** Segments of an identifier *)

Section Segments.

Lemma split_first_defined (c : ascii) (s : string) :
  is_Some (JS.split c s !! 0%nat).
Proof.
  pose proof (split_nonempty c s) as H.
  destruct (JS.split c s); [contradiction | now eexists].
Qed.

(** There is a second segment exactly when the separator occurs. *)
Lemma split_second_none (c : ascii) (s : string) :
  JS.split c s !! 1%nat = None <-> JS.includes (String c EmptyString) s = false.
Proof.
  induction s as [|x s IH]; [split; reflexivity |].
  rewrite includes_char_cons. simpl. rewrite (Ascii.eqb_sym c x).
  destruct (Ascii.eqb x c); simpl.
  - destruct (split_first_defined c s) as [seg Hseg].
    change ((EmptyString :: JS.split c s) !! 1%nat) with (JS.split c s !! 0%nat).
    rewrite Hseg. split; discriminate.
  - pose proof (split_nonempty c s) as Hne.
    destruct (JS.split c s) as [|seg rest]; [contradiction |]. exact IH.
Qed.

(** What a first segment says about the string: it holds no separator, and
    the string is that segment alone or the segment, the separator and a
    string that splits to the remaining segments. *)
Lemma split_head_inv (c : ascii) (s a : string) (rest : list string) :
  JS.split c s = a :: rest ->
  JS.includes (String c EmptyString) a = false
  /\ ((rest = [] /\ s = a)
      \/ (exists b, s = a +:+ String c b /\ JS.split c b = rest)).
Proof.
  revert a rest; induction s as [|x s IH]; intros a rest E; simpl in E.
  - injection E as <- <-. split; [reflexivity | left; split; reflexivity].
  - destruct (Ascii.eqb_spec x c) as [-> | N].
    + injection E as <- <-. split; [reflexivity |]. right. now exists s.
    + pose proof (split_nonempty c s) as Hne.
      destruct (JS.split c s) as [|seg more] eqn:Es; [contradiction |].
      injection E as <- <-. destruct (IH seg more eq_refl) as [Hseg Hs]. split.
      * rewrite includes_char_cons, Hseg, orb_false_r.
        apply Ascii.eqb_neq. congruence.
      * destruct Hs as [[-> ->] | (b & -> & Hb)].
        -- left. split; reflexivity.
        -- right. exists b. split; [reflexivity | exact Hb].
Qed.

(** The first two segments, read back. *)
Lemma split_two_inv (s ty id : string) :
  JS.split colon s !! 0%nat = Some ty -> JS.split colon s !! 1%nat = Some id ->
  no_colon ty = true /\ no_colon id = true
  /\ exists tail, colon_tail tail = true /\ s = ty +:+ ":" +:+ id +:+ tail.
Proof.
  intros H0 H1. destruct (JS.split colon s) as [|a [|b more]] eqn:E;
    try discriminate. injection H0 as ->. injection H1 as ->.
  destruct (split_head_inv _ _ _ _ E) as [Hty [[D _] | (rest & -> & Er)]];
    [discriminate |].
  destruct (split_head_inv _ _ _ _ Er) as [Hid Hrest].
  unfold no_colon. fold colon. change (String colon EmptyString) with ":" in *.
  rewrite Hty, Hid. split; [reflexivity |]. split; [reflexivity |].
  destruct Hrest as [[-> ->] | (rest' & -> & _)].
  - exists EmptyString. split; [reflexivity |]. now rewrite append_empty_r.
  - exists (String colon rest'). split; [apply Ascii.eqb_refl | reflexivity].
Qed.

End Segments.

(** X3.  Which index fields can be undefined.  The type fields are always
    defined.  The subject id is undefined exactly when the subject has no
    colon, and the entity id exactly when the entry is not a wildcard and
    the object has no colon; so for a triple the validator accepts, all
    four are defined. *)
Theorem constructObjectIndex_undefined_ids
    (subject permission role object : string) (tree : list string) :
  let e := constructObjectIndex subject permission role object tree in
  is_Some (oi_subjectType e) /\ is_Some (oi_entityType e)
  /\ (oi_subjectId e = None <-> ~ has_colon subject)
  /\ (oi_entityId e = None
      <-> role <> "*" /\ object <> "*" /\ ~ has_colon object)
  /\ (forall relation, checkRelation subject relation object = inr tt ->
      is_Some (oi_subjectId e) /\ is_Some (oi_entityId e)).
Proof.
  intros e; subst e; unfold constructObjectIndex; simpl.
  assert (Hid : forall s, JS.split colon s !! 1%nat = None <-> ~ has_colon s).
  { intros s. rewrite split_second_none. apply includes_colon_false. }
  split; [apply split_first_defined |]. split; [| split; [apply Hid | split]].
  - destruct (String.eqb role "*" || String.eqb object "*");
      [now eexists | apply split_first_defined].
  - destruct (String.eqb_spec role "*") as [-> | Nr]; simpl.
    { split; [discriminate | intros [N _]; now contradiction N]. }
    destruct (String.eqb_spec object "*") as [-> | No]; simpl.
    { split; [discriminate | intros (_ & N & _); now contradiction N]. }
    rewrite Hid. tauto.
  - intros relation V.
    assert (Hs : has_colon subject /\ has_colon object).
    { destruct (accepted_has_colons subject relation object V)
        as [Hs Ho]. split; assumption. }
    destruct Hs as [Hs Ho]. split.
    + destruct (JS.split colon subject !! 1%nat) eqn:E; [now eexists |].
      apply Hid in E. contradiction.
    + destruct (String.eqb role "*" || String.eqb object "*"); [now eexists |].
      destruct (JS.split colon object !! 1%nat) eqn:E; [now eexists |].
      apply Hid in E. contradiction.
Qed.

Lemma constructObjectIndex_undefined_ids_witness :
  (is_Some (oi_subjectId (constructObjectIndex "user:1" "read" "viewer" "doc:42" []))
   /\ is_Some (oi_entityId (constructObjectIndex "user:1" "read" "viewer" "doc:42" [])))
  /\ oi_subjectId (constructObjectIndex "user1" "read" "viewer" "doc:42" []) = None.
Proof.
  split.
  - apply (proj2 (proj2 (proj2 (proj2
             (constructObjectIndex_undefined_ids "user:1" "read" "viewer" "doc:42" []))))
             "owner").
    reflexivity.
  - apply (proj1 (proj2 (proj2
             (constructObjectIndex_undefined_ids "user1" "read" "viewer" "doc:42" [])))).
    apply includes_colon_false. reflexivity.
Defined.

(** X4.  The type and id of an entry, read back: when the entry has subject
    type [ty] and subject id [id], neither holds a colon and the subject is
    [ty], a colon, [id], followed by nothing or by a colon and more text; the
    subject is recovered as [ty:id] exactly when nothing follows. *)
Theorem constructObjectIndex_subject_read_back
    (subject permission role object ty id : string) (tree : list string) :
  let e := constructObjectIndex subject permission role object tree in
  oi_subjectType e = Some ty -> oi_subjectId e = Some id ->
  no_colon ty = true /\ no_colon id = true
  /\ exists tail,
      colon_tail tail = true
      /\ subject = ty +:+ ":" +:+ id +:+ tail
      /\ (subject = ty +:+ ":" +:+ id <-> tail = EmptyString).
Proof.
  intros e H0 H1. destruct (split_two_inv subject ty id H0 H1)
    as (Hty & Hid & tail & Ht & E).
  split; [exact Hty |]. split; [exact Hid |]. exists tail.
  split; [exact Ht |]. split; [exact E |]. rewrite E. split.
  - intros Eq. rewrite <- (append_empty_r id) in Eq at 2.
    apply String.app_inj in Eq. change (":" +:+ id +:+ tail)
      with (String colon (id +:+ tail)) in Eq.
    change (":" +:+ id +:+ EmptyString) with (String colon (id +:+ EmptyString)) in Eq.
    injection Eq as Eq. now apply String.app_inj in Eq.
  - intros ->. now rewrite append_empty_r.
Qed.

Lemma constructObjectIndex_subject_read_back_witness :
  no_colon "user" = true /\ no_colon "abc" = true
  /\ exists tail,
      colon_tail tail = true
      /\ "user:abc:def" = "user" +:+ ":" +:+ "abc" +:+ tail
      /\ ("user:abc:def" = "user" +:+ ":" +:+ "abc" <-> tail = EmptyString).
Proof.
  apply (constructObjectIndex_subject_read_back
           "user:abc:def" "read" "viewer" "doc:42" "user" "abc" []);
    reflexivity.
Defined.

(** ** More on the rule cache *)

Section RuleCacheMore.
Import State RuleCache.

Lemma cache_key_inj (t t' : string) : cache_key t = cache_key t' -> t = t'.
Proof. unfold cache_key. apply String.app_inj. Qed.

Lemma get_after_set_other (now later : Z) (k k' v : string) (ttl : Z)
    (st : gmap string Entry) :
  k <> k' -> get later k' (set_with_expiry now k v ttl st) = get later k' st.
Proof.
  intros N. unfold get, set_with_expiry. now rewrite lookup_insert_ne.
Qed.

End RuleCacheMore.

(** X5.  Decisions of different tuples do not interfere: after
    [storeResolution t d], a lookup of another tuple [t'] answers what it
    would have answered without the store, at any instant. *)
Theorem storeResolution_other_tuple
    (t t' : string) (d : bool) (now later : Z) (st : gmap string State.Entry) :
  t <> t' ->
  State.result
    (State.run later
       (State.final (State.run now st (RuleCache.storeResolution t d)))
       (RuleCache.findResolution t'))
  = State.result (State.run later st (RuleCache.findResolution t')).
Proof.
  intros N. rewrite run_storeResolution, !run_findResolution.
  unfold State.result, State.final; simpl.
  fold (State.set_with_expiry now (cache_key t) (JS.toString d) 2000 st).
  rewrite get_after_set_other; [reflexivity |].
  intros E. apply N. now apply cache_key_inj.
Qed.

Lemma storeResolution_other_tuple_witness :
  State.result
    (State.run 5
       (State.final
          (State.run 0 {[ cache_key "user:1#read@doc:1" := State.mkEntry "true" 100 ]}
             (RuleCache.storeResolution "user:1#read@doc:2" false)))
       (RuleCache.findResolution "user:1#read@doc:1"))
  = State.result
      (State.run 5 {[ cache_key "user:1#read@doc:1" := State.mkEntry "true" 100 ]}
         (RuleCache.findResolution "user:1#read@doc:1")).
Proof.
  apply (storeResolution_other_tuple "user:1#read@doc:2" "user:1#read@doc:1").
  discriminate.
Defined.

(** X6.  The last store wins and restarts the validity window: after two
    stores of the same tuple, a lookup made less than 2000 ms after the
    second answers the second decision, however long ago the first store
    was, and one made 2000 ms after the second or later is a miss. *)
Theorem storeResolution_last_write_wins
    (t : string) (d1 d2 : bool) (first second later : Z)
    (st : gmap string State.Entry) :
  let st1 := State.final (State.run first st (RuleCache.storeResolution t d1)) in
  let st2 := State.final (State.run second st1 (RuleCache.storeResolution t d2)) in
  (later < second + 2000 ->
   State.result (State.run later st2 (RuleCache.findResolution t)) = Hit d2)
  /\ (second + 2000 <= later ->
      State.result (State.run later st2 (RuleCache.findResolution t)) = Miss)
  /\ st2 = State.final (State.run second st (RuleCache.storeResolution t d2)).
Proof.
  intros st1 st2. subst st1 st2. split; [| split].
  - intros H. rewrite find_after_store.
    destruct (Z.ltb_spec later (second + 2000)); [reflexivity | lia].
  - intros H. rewrite find_after_store.
    destruct (Z.ltb_spec later (second + 2000)); [lia | reflexivity].
  - rewrite !run_storeResolution. unfold State.final; simpl.
    apply insert_insert_eq.
Qed.

Lemma storeResolution_last_write_wins_witness :
  State.result
    (State.run 6000
       (State.final
          (State.run 5000
             (State.final (State.run 0 ∅ (RuleCache.storeResolution "t" true)))
             (RuleCache.storeResolution "t" false)))
       (RuleCache.findResolution "t")) = Hit false.
Proof.
  apply (storeResolution_last_write_wins "t" true false 0 5000 6000 ∅). lia.
Defined.

(** ** More on the access-list queries *)

Section QueryInterpolation.
Import SqlText.
Variables objectTypeCollection computedTuple subject objectType action : string.

#[local] Arguments String.append : simpl nomatch.

Lemma postgres_filters :
  occurs_in ("WHERE subject = '" +:+ subject +:+ "')")
    (getPostgresAccessListQuery objectTypeCollection computedTuple subject
       objectType action)
  /\ occurs_in
       ("WHERE " +:+ dq +:+ "subjectType" +:+ dq +:+ " = '" +:+ objectType +:+ "'" +:+ nl)
       (getPostgresAccessListQuery objectTypeCollection computedTuple subject
          objectType action)
  /\ occurs_in
       ("AND " +:+ dq +:+ "subjectPermission" +:+ dq +:+ " = '" +:+ action +:+ "')")
       (getPostgresAccessListQuery objectTypeCollection computedTuple subject
          objectType action).
Proof.
  unfold getPostgresAccessListQuery, nl, dq. simpl. split; [| split].
  - find_occurrence_around "WHERE subject = '" subject "')".
  - find_occurrence_around
      ("WHERE " +:+ dq +:+ "subjectType" +:+ dq +:+ " = '") objectType
      ("'" +:+ nl).
  - find_occurrence_around
      ("AND " +:+ dq +:+ "subjectPermission" +:+ dq +:+ " = '") action "')".
Qed.

Lemma sql_filters :
  occurs_in ("WHERE subject = '" +:+ subject +:+ "')")
    (getSQLAccessListQuery objectTypeCollection computedTuple subject
       objectType action)
  /\ occurs_in
       ("WHERE " +:+ dq +:+ "subjectType" +:+ dq +:+ " = '" +:+ objectType +:+ "'" +:+ nl)
       (getSQLAccessListQuery objectTypeCollection computedTuple subject
          objectType action)
  /\ occurs_in
       ("AND " +:+ dq +:+ "subjectPermission" +:+ dq +:+ " = '" +:+ action +:+ "')")
       (getSQLAccessListQuery objectTypeCollection computedTuple subject
          objectType action).
Proof.
  unfold getSQLAccessListQuery, nl, dq. simpl. split; [| split].
  - find_occurrence_around "WHERE subject = '" subject "')".
  - find_occurrence_around
      ("WHERE " +:+ dq +:+ "subjectType" +:+ dq +:+ " = '") objectType
      ("'" +:+ nl).
  - find_occurrence_around
      ("AND " +:+ dq +:+ "subjectPermission" +:+ dq +:+ " = '") action "')".
Qed.

End QueryInterpolation.

(** X7.  Both query texts carry the subject, the object type and the action
    as they are given, between single quotes and unescaped, in the same
    three filters: the actor filter on [subject] and the object-index
    filters on the quoted columns [subjectType] and [subjectPermission],
    which the bare-identifier text quotes as well. *)
Theorem queries_embed_inputs_verbatim
    (objectTypeCollection computedTuple subject objectType action : string) :
  let pg := getPostgresAccessListQuery objectTypeCollection computedTuple
              subject objectType action in
  let sq := getSQLAccessListQuery objectTypeCollection computedTuple
              subject objectType action in
  let actor_filter := "WHERE subject = '" +:+ subject +:+ "')" in
  let type_filter :=
    "WHERE " +:+ dq +:+ "subjectType" +:+ dq +:+ " = '" +:+ objectType +:+ "'" +:+ nl in
  let action_filter :=
    "AND " +:+ dq +:+ "subjectPermission" +:+ dq +:+ " = '" +:+ action +:+ "')" in
  (SqlText.occurs_in actor_filter pg /\ SqlText.occurs_in actor_filter sq)
  /\ (SqlText.occurs_in type_filter pg /\ SqlText.occurs_in type_filter sq)
  /\ (SqlText.occurs_in action_filter pg /\ SqlText.occurs_in action_filter sq).
Proof.
  intros pg sq actor_filter type_filter action_filter.
  pose proof (postgres_filters objectTypeCollection computedTuple subject
                objectType action) as (P1 & P2 & P3).
  pose proof (sql_filters objectTypeCollection computedTuple subject
                objectType action) as (S1 & S2 & S3).
  repeat split; assumption.
Qed.

(** ** Push notification payloads *)

Section NotificationFacts.
Import PushNotifications.
Context {Data : Type}.

Lemma truthy_string_spec (s : option string) :
  truthy_string s = true <-> has_text s.
Proof.
  unfold has_text. destruct s as [[|c rest]|]; simpl; split;
    try discriminate; try (intros (c' & r' & E); discriminate).
  - intros _. now exists c, rest.
  - reflexivity.
Qed.

Lemma truthy_bool_spec (b : option bool) :
  truthy_bool b = true <-> b = Some true.
Proof. destruct b as [[|]|]; simpl; split; congruence. Qed.

Lemma truthy_object_false (d : option Data) :
  truthy_object Data d = false <-> d = None.
Proof. destruct d; simpl; split; congruence. Qed.

End NotificationFacts.

(** X8.  The three outcomes of [validateNotification].  It throws the title
    error exactly for a silent notification with a non-empty title or a
    non-empty body, whether or not it has data; the data error exactly for a
    silent one with neither and no data; and otherwise returns [true]: a
    notification that is not silent always passes, and an empty title or
    body counts as none. *)
Theorem validateNotification_outcomes {Data : Type}
    (n : PushNotifications.Notification Data) :
  let silent := PushNotifications.n_isSilent n = Some true in
  let text := has_text (PushNotifications.n_title n)
              \/ has_text (PushNotifications.n_body n) in
  (PushNotifications.validateNotification n
   = inl (Err "Cannot send a silent notification with a title")
   <-> silent /\ text)
  /\ (PushNotifications.validateNotification n
      = inl (Err "Cannot send a silent notification without data")
      <-> silent /\ ~ text /\ PushNotifications.n_data n = None)
  /\ (PushNotifications.validateNotification n = inr true
      <-> ~ silent \/ (~ text /\ PushNotifications.n_data n <> None)).
Proof.
  intros silent text. subst silent text.
  unfold PushNotifications.validateNotification.
  rewrite <- !truthy_string_spec, <- truthy_bool_spec, <- truthy_object_false.
  destruct (PushNotifications.truthy_bool (PushNotifications.n_isSilent n)),
    (PushNotifications.truthy_string (PushNotifications.n_title n)),
    (PushNotifications.truthy_string (PushNotifications.n_body n)),
    (PushNotifications.truthy_object Data (PushNotifications.n_data n));
    simpl; repeat split; intros; try discriminate; try tauto;
    intuition congruence.
Qed.

Lemma validateNotification_outcomes_witness :
  PushNotifications.validateNotification
    (PushNotifications.mkNotification (Some true) None (Some "hello") (@None unit))
  = inl (Err "Cannot send a silent notification with a title")
  /\ PushNotifications.validateNotification
       (PushNotifications.mkNotification (Some true) (Some EmptyString) None (Some tt))
     = inr true.
Proof.
  split.
  - apply (proj1 (validateNotification_outcomes
                    (PushNotifications.mkNotification (Some true) None (Some "hello")
                       (@None unit)))).
    split; [reflexivity |]. right. now exists "h"%char, "ello".
  - apply (proj2 (proj2 (validateNotification_outcomes
                    (PushNotifications.mkNotification (Some true) (Some EmptyString)
                       None (Some tt))))).
    right. split; [| discriminate].
    intros [(c & r & E) | (c & r & E)]; discriminate.
Defined.

(** ** Client middleware *)

Section InterceptorFacts.
Import Interceptors.
Context {Request Response Others : Type}.

Lemma token_interceptor_run (grpcToken : string)
    (call : ClientMiddlewareCall Request Response Others)
    (options : CallOptions Others) :
  getGrpcSignedTokenInterceptor grpcToken call options
  = if legal_value grpcToken
    then (with_entry "grpc-token" grpcToken options,
          Continued (next call (request call)
                       (with_entry "grpc-token" grpcToken options)))
    else (with_metadata options, Threw).
Proof.
  unfold getGrpcSignedTokenInterceptor, set, with_entry, with_metadata.
  destruct options as [[md|] o]; simpl; destruct (legal_value grpcToken);
    reflexivity.
Qed.

Lemma module_interceptor_run (moduleName : string)
    (call : ClientMiddlewareCall Request Response Others)
    (options : CallOptions Others) :
  getModuleNameInterceptor moduleName call options
  = if legal_value moduleName
    then (with_entry "module-name" moduleName options,
          Continued (next call (request call)
                       (with_entry "module-name" moduleName options)))
    else (with_metadata options, Threw).
Proof.
  unfold getModuleNameInterceptor, set, with_entry, with_metadata.
  destruct options as [[md|] o]; simpl; destruct (legal_value moduleName);
    reflexivity.
Qed.

Lemma with_entry_lookup (key value k : string) (options : CallOptions Others) :
  entry k (with_entry key value options)
  = if decide (key = k) then Some value else entry k options.
Proof.
  unfold entry, with_entry; simpl. rewrite lookup_insert.
  destruct (decide (key = k)); [reflexivity |].
  destruct (metadata options); [reflexivity | apply lookup_empty].
Qed.

Lemma with_metadata_lookup (k : string) (options : CallOptions Others) :
  entry k (with_metadata options) = entry k options.
Proof.
  unfold entry, with_metadata; simpl.
  destruct (metadata options); [reflexivity | apply lookup_empty].
Qed.



End InterceptorFacts.

(** X9.  What an interceptor hands on.  For a value of printable ASCII
    characters the continuation gets the request unchanged and the options
    object the caller passed, which by then has a metadata whose entry for
    the interceptor's key is the given value; every other entry and every
    other option is as the caller had it, and a missing metadata is
    created.  For any other value [Metadata.set] throws: the middleware
    throws, the call is not continued, and no entry of the metadata has
    changed, though a missing metadata has been created.  The token
    interceptor sets [grpc-token], the module-name interceptor
    [module-name]. *)
Theorem interceptor_sets_its_entry {Request Response Others : Type}
    (value : string)
    (call : Interceptors.ClientMiddlewareCall Request Response Others)
    (options : Interceptors.CallOptions Others) :
  let token := Interceptors.getGrpcSignedTokenInterceptor value call options in
  let module := Interceptors.getModuleNameInterceptor value call options in
  (Interceptors.legal_value value = true ->
   (token.2
    = Interceptors.Continued
        (Interceptors.next call (Interceptors.request call) token.1)
    /\ Interceptors.others token.1 = Interceptors.others options
    /\ is_Some (Interceptors.metadata token.1)
    /\ forall k, entry k token.1
                 = if decide ("grpc-token" = k) then Some value else entry k options)
   /\ (module.2
       = Interceptors.Continued
           (Interceptors.next call (Interceptors.request call) module.1)
       /\ Interceptors.others module.1 = Interceptors.others options
       /\ is_Some (Interceptors.metadata module.1)
       /\ forall k, entry k module.1
                    = if decide ("module-name" = k) then Some value
                      else entry k options))
  /\ (Interceptors.legal_value value = false ->
      (token.2 = Interceptors.Threw
       /\ Interceptors.others token.1 = Interceptors.others options
       /\ is_Some (Interceptors.metadata token.1)
       /\ forall k, entry k token.1 = entry k options)
      /\ (module.2 = Interceptors.Threw
          /\ Interceptors.others module.1 = Interceptors.others options
          /\ is_Some (Interceptors.metadata module.1)
          /\ forall k, entry k module.1 = entry k options)).
Proof.
  intros token module. subst token module.
  rewrite token_interceptor_run, module_interceptor_run. split; intros ->; simpl.
  - split; (split; [reflexivity |]; split; [reflexivity |];
            split; [now eexists | intros k; apply with_entry_lookup]).
  - split; (split; [reflexivity |]; split; [reflexivity |];
            split; [now eexists | intros k; apply with_metadata_lookup]).
Qed.

Lemma interceptor_sets_its_entry_witness :
  let call : Interceptors.ClientMiddlewareCall string (option string) unit :=
    Interceptors.mkCall "ping" (fun req options => entry "grpc-token" options) in
  let options := Interceptors.mkCallOptions None tt in
  (Interceptors.getGrpcSignedTokenInterceptor "s3cret" call options).2
  = Interceptors.Continued (Some "s3cret")
  /\ (Interceptors.getGrpcSignedTokenInterceptor
        (String (ascii_of_nat 233) "x") call options).2
     = Interceptors.Threw.
Proof.
  intros call options. split.
  - rewrite (proj1 (proj1 (proj1 (interceptor_sets_its_entry "s3cret" call options)
                                   eq_refl))).
    reflexivity.
  - apply (proj1 (proj1 (proj2 (interceptor_sets_its_entry
                                  (String (ascii_of_nat 233) "x") call options)
                                 eq_refl))).
Defined.



(** ** Stored files *)

(** X11.  [updateFileMetrics] never increments: whatever the two sizes, the
    only call it makes is a decrement of [storage_size_bytes_total] by the
    absolute difference, also when the new size is the larger one; without a
    metrics object it makes no call. *)
Theorem updateFileMetrics_only_decrements (metrics : bool) (currentSize newSize : Z) :
  Storage.updateFileMetrics metrics currentSize newSize
  = (if metrics
     then [Storage.Decrement "storage_size_bytes_total" (Z.abs (currentSize - newSize))]
     else [])
  /\ (forall name amount,
         Storage.Increment name amount
         ∉ Storage.updateFileMetrics metrics currentSize newSize)
  /\ (currentSize < newSize ->
      Storage.updateFileMetrics true currentSize newSize
      = [Storage.Decrement "storage_size_bytes_total" (newSize - currentSize)]).
Proof.
  unfold Storage.updateFileMetrics.
  destruct (Z.ltb_spec (Z.abs (currentSize - newSize)) 0) as [H | H]; [lia |].
  split; [reflexivity |]. split.
  - intros name amount Hin. destruct metrics.
    + apply list_elem_of_singleton in Hin. discriminate.
    + now apply not_elem_of_nil in Hin.
  - intros Hlt. now replace (Z.abs (currentSize - newSize)) with (newSize - currentSize) by lia.
Qed.

Lemma updateFileMetrics_only_decrements_witness :
  Storage.updateFileMetrics true 10 25
  = [Storage.Decrement "storage_size_bytes_total" (25 - 10)].
Proof.
  apply (updateFileMetrics_only_decrements true 10 25). lia.
Defined.

Section ObjectPaths.
Import Storage.

Lemma is_folder_cons (c : ascii) (s : string) :
  is_folder (String c s) = true ->
  (s = EmptyString /\ c = "/"%char) \/ is_folder s = true.
Proof.
  destruct s as [|d s]; simpl.
  - intros H. left. split; [reflexivity | now apply Ascii.eqb_eq].
  - intros H. right. exact H.
Qed.

Lemma is_folder_has_slash (s rest : string) :
  is_folder s = true -> JS.includes "/" (s +:+ rest) = true.
Proof.
  induction s as [|c s IH]; intros H; [discriminate |].
  rewrite append_cons, includes_char_cons.
  destruct (is_folder_cons c s H) as [[-> ->] | Hs].
  - reflexivity.
  - rewrite (IH Hs). apply orb_true_r.
Qed.

(** A prefix that is empty or ends with a slash, followed by a name without
    slashes, can be cut in one way only. *)
Lemma prefix_name_inj (p p' n n' : string) :
  p = EmptyString \/ is_folder p = true ->
  p' = EmptyString \/ is_folder p' = true ->
  slash_free n = true -> slash_free n' = true ->
  p +:+ n = p' +:+ n' -> p = p' /\ n = n'.
Proof.
  unfold slash_free. rewrite !negb_true_iff.
  revert p'; induction p as [|c p IH]; intros [|c' p'] Hp Hp' Hn Hn' E;
    rewrite ?append_nil, ?append_cons in E.
  - now split.
  - destruct Hp' as [D | Hp']; [discriminate |].
    rewrite E, <- append_cons, (is_folder_has_slash _ _ Hp') in Hn. discriminate.
  - destruct Hp as [D | Hp]; [discriminate |].
    rewrite <- E, <- append_cons, (is_folder_has_slash _ _ Hp) in Hn'. discriminate.
  - injection E as -> E.
    destruct Hp as [D | Hp]; [discriminate |].
    destruct Hp' as [D | Hp']; [discriminate |].
    destruct (IH p') as [-> ->]; auto.
    + destruct (is_folder_cons _ _ Hp) as [[-> _] | H]; auto.
    + destruct (is_folder_cons _ _ Hp') as [[-> _] | H]; auto.
Qed.

Lemma same_place_spec (file : File) (params : IFileParams) :
  String.eqb (p_name params) (file_name file)
  && String.eqb (p_folder params) (file_folder file)
  && String.eqb (p_container params) (file_container file) = true
  <-> same_place file params.
Proof.
  unfold same_place. rewrite !andb_true_iff, !String.eqb_eq. tauto.
Qed.

Lemma objectPath_inj (f n f' n' : string) :
  is_folder f = true -> is_folder f' = true ->
  slash_free n = true -> slash_free n' = true ->
  objectPath f n = objectPath f' n' -> f = f' /\ n = n'.
Proof.
  intros Hf Hf' Hn Hn' E. unfold objectPath in E.
  destruct (String.eqb_spec f "/") as [-> | Nf],
           (String.eqb_spec f' "/") as [-> | Nf'].
  - rewrite !append_nil in E. now split.
  - destruct (prefix_name_inj EmptyString f' n n') as [<- _]; auto. discriminate.
  - destruct (prefix_name_inj f EmptyString n n') as [-> _]; auto. discriminate.
  - apply prefix_name_inj; auto.
Qed.

End ObjectPaths.

(** X12.  The object key determines folder and name, for folders that end
    with a slash and names without a slash: two such pairs with the same key
    are the same pair.  A name with a slash breaks this: folder [/] with
    name [a/b] and folder [a/] with name [b] have the same key. *)
Theorem objectPath_injective :
  (forall folder name folder' name',
      is_folder folder = true -> is_folder folder' = true ->
      slash_free name = true -> slash_free name' = true ->
      Storage.objectPath folder name = Storage.objectPath folder' name' ->
      folder = folder' /\ name = name')
  /\ Storage.objectPath "/" "a/b" = Storage.objectPath "a/" "b".
Proof.
  split; [| reflexivity].
  intros f n f' n' Hf Hf' Hn Hn' E. now apply objectPath_inj.
Qed.

Lemma objectPath_injective_witness :
  "docs/" = "docs/" /\ "a.txt" = "a.txt".
Proof.
  apply (proj1 objectPath_injective "docs/" "a.txt" "docs/" "a.txt"); reflexivity.
Defined.

(** Running a storage function: unfold its binds and follow every answer of
    the collaborators. *)
Ltac follow_run :=
  unfold Storage._updateFile, Storage._updateFileUploadUrl,
    Storage._createFileUploadUrl, Storage.updateFileMetrics,
    mbind, mret, Storage.prog_bind, Storage.prog_ret,
    Storage.store, Storage.delete, Storage.getPublicUrl, Storage.getUploadUrl,
    Storage.create, Storage.findByIdAndUpdate;
  simpl;
  repeat match goal with
         | |- context [Storage.store_ok ?e ?c ?q] =>
             destruct (Storage.store_ok e c q) eqn:?; simpl
         | |- context [Storage.delete_ok ?e ?c ?q] =>
             destruct (Storage.delete_ok e c q) eqn:?; simpl
         | |- context [Storage.public_url ?e ?c ?q] =>
             destruct (Storage.public_url e c q) eqn:?; simpl
         | |- context [Storage.upload_url ?e ?c ?q] =>
             destruct (Storage.upload_url e c q) eqn:?; simpl
         | |- context [Storage.created ?e ?d] =>
             destruct (Storage.created e d) eqn:?; simpl
         | |- context [Storage.updated ?e ?i ?d] =>
             destruct (Storage.updated e i d) eqn:?; simpl
         | |- context [Storage.p_size ?p] =>
             destruct (Storage.p_size p) eqn:?; simpl
         | |- context [if ?b then _ else _] => destruct b eqn:?; simpl
         end.

(** X13.  [_updateFile] stores first and deletes at most the old object.
    Its first call stores the data under the new key, with the visibility
    of the existing file.  When name, folder and container are unchanged it
    deletes nothing; when one of them changed and the store succeeded, it
    deletes the object of the old key, and nothing else, before any
    document is written.  For folders that end with a slash and names
    without slashes, the object deleted is never the one just stored. *)
Theorem _updateFile_deletes_old_object
    (env : Storage.Env) (metrics_on : bool)
    (file : Storage.File) (params : Storage.IFileParams) :
  let new_key := Storage.objectPath (Storage.p_folder params) (Storage.p_name params) in
  let old_key := Storage.objectPath (Storage.file_folder file) (Storage.file_name file) in
  let ops := (Storage.run env (Storage._updateFile metrics_on file params)).1 in
  (exists rest,
      ops = Storage.OStore (Storage.p_container params) new_key
              (Storage.p_data params) (Storage.file_isPublic file) :: rest)
  /\ (same_place file params -> deleted ops = [])
  /\ (~ same_place file params ->
      Storage.store_ok env (Storage.p_container params) new_key = true ->
      deleted ops = [(Storage.file_container file, old_key)]
      /\ exists rest,
          ops = Storage.OStore (Storage.p_container params) new_key
                  (Storage.p_data params) (Storage.file_isPublic file)
                :: Storage.ODelete (Storage.file_container file) old_key :: rest)
  /\ (~ same_place file params ->
      is_folder (Storage.p_folder params) = true ->
      is_folder (Storage.file_folder file) = true ->
      slash_free (Storage.p_name params) = true ->
      slash_free (Storage.file_name file) = true ->
      (Storage.file_container file, old_key) <> (Storage.p_container params, new_key)).
Proof.
  intros new_key old_key ops. subst new_key old_key ops.
  split; [| split; [| split]].
  - follow_run; eexists; reflexivity.
  - intros H. apply same_place_spec in H. unfold Storage._updateFile.
    rewrite H. follow_run; reflexivity.
  - intros N Hs. rewrite <- same_place_spec in N. apply not_true_is_false in N.
    unfold Storage._updateFile. rewrite N.
    follow_run; try congruence; (split; [reflexivity | eexists; reflexivity]).
  - intros N Hf Hf' Hn Hn' E. apply N. injection E as Ec Ek.
    destruct (objectPath_inj _ _ _ _ Hf' Hf Hn' Hn Ek) as [En Ef].
    unfold same_place. auto.
Qed.

Lemma _updateFile_deletes_old_object_witness :
  let env := Storage.mkEnv (fun _ _ => true) (fun _ _ => true)
               (fun _ _ => Some "url") (fun _ _ => Some "url")
               (fun _ => None) (fun _ _ => Some None) in
  let file := Storage.mkFile "id0" "a.txt" "docs/" "bucket" 10 true in
  let params := Storage.mkParams "b.txt" None "hello" "bucket" "docs/" None true None in
  deleted (Storage.run env (Storage._updateFile true file params)).1
  = [("bucket", "docs/a.txt")]
  /\ ("bucket", "docs/a.txt") <> ("bucket", "docs/b.txt").
Proof.
  intros env file params. split.
  - apply (_updateFile_deletes_old_object env true file params);
      [intros (E & _ & _); discriminate E | reflexivity].
  - apply (_updateFile_deletes_old_object env true file params);
      [intros (E & _ & _); discriminate E | reflexivity ..].
Defined.

(** X14.  [_updateFileUploadUrl] leaves the stored object alone when name,
    folder and container are unchanged: it stores and deletes nothing, and
    its first call updates the document with the mime type, the alias and
    the size only.  In every case the size written is the given one, or the
    size the file had when none is given, and without a given size no metric
    is touched. *)
Theorem _updateFileUploadUrl_unchanged_place
    (env : Storage.Env) (metrics_on : bool)
    (file : Storage.File) (params : Storage.IFileParams) :
  let ops := (Storage.run env (Storage._updateFileUploadUrl metrics_on file params)).1 in
  (same_place file params ->
   stored ops = [] /\ deleted ops = []
   /\ exists rest,
       ops = Storage.OFindByIdAndUpdate (Storage.file_id file)
               {| Storage.d_name := None;
                  Storage.d_alias := Storage.p_alias params;
                  Storage.d_mimeType := Storage.p_mimeType params;
                  Storage.d_folder := None;
                  Storage.d_container := None;
                  Storage.d_size :=
                    Some (default (Storage.file_size file) (Storage.p_size params));
                  Storage.d_isPublic := None;
                  Storage.d_url := None |} :: rest)
  /\ (forall doc, doc ∈ written ops ->
      Storage.d_size doc
      = Some (default (Storage.file_size file) (Storage.p_size params)))
  /\ (Storage.p_size params = None -> measured ops = []).
Proof.
  intros ops. subst ops. split; [| split].
  - intros H. apply same_place_spec in H. unfold Storage._updateFileUploadUrl.
    rewrite H. follow_run; (split; [reflexivity |]; split; [reflexivity |]);
      eexists; reflexivity.
  - intros doc. follow_run; intros Hin;
      repeat match goal with
             | H : _ ∈ [] |- _ => now apply not_elem_of_nil in H
             | H : _ ∈ _ :: _ |- _ => apply elem_of_cons in H as [-> | H]
             end; reflexivity.
  - intros Hs. unfold Storage._updateFileUploadUrl. rewrite Hs.
    follow_run; reflexivity.
Qed.

Lemma _updateFileUploadUrl_unchanged_place_witness :
  let env := Storage.mkEnv (fun _ _ => true) (fun _ _ => true)
               (fun _ _ => Some "url") (fun _ _ => Some "url")
               (fun _ => None) (fun _ _ => Some None) in
  let file := Storage.mkFile "id0" "a.txt" "docs/" "bucket" 10 true in
  let params := Storage.mkParams "a.txt" None "hello" "bucket" "docs/" None true None in
  (stored (Storage.run env (Storage._updateFileUploadUrl true file params)).1 = []
   /\ deleted (Storage.run env (Storage._updateFileUploadUrl true file params)).1 = [])
  /\ measured (Storage.run env (Storage._updateFileUploadUrl true file params)).1 = [].
Proof.
  intros env file params. split.
  - destruct (proj1 (_updateFileUploadUrl_unchanged_place env true file params))
      as (S & D & _); [repeat split | split; assumption].
  - apply (_updateFileUploadUrl_unchanged_place env true file params). reflexivity.
Defined.

(** X15.  The store comes first.  When the provider rejects the store,
    [_createFileUploadUrl] and [_updateFile] make no other call: no document
    is created or updated, nothing is deleted and no metric moves; the same
    holds for [_updateFileUploadUrl] when the name, folder or container
    changes. *)
Theorem store_rejected_stops_everything
    (env : Storage.Env) (metrics_on : bool)
    (file : Storage.File) (params : Storage.IFileParams) :
  let key := Storage.objectPath (Storage.p_folder params) (Storage.p_name params) in
  Storage.store_ok env (Storage.p_container params) key = false ->
  Storage.run env (Storage._createFileUploadUrl metrics_on params)
  = ([Storage.OStore (Storage.p_container params) key "PENDING UPLOAD"
        (Storage.p_isPublic params)], None)
  /\ Storage.run env (Storage._updateFile metrics_on file params)
     = ([Storage.OStore (Storage.p_container params) key (Storage.p_data params)
           (Storage.file_isPublic file)], None)
  /\ (~ same_place file params ->
      Storage.run env (Storage._updateFileUploadUrl metrics_on file params)
      = ([Storage.OStore (Storage.p_container params) key "PENDING UPLOAD"
            (Storage.file_isPublic file)], None)).
Proof.
  intros key Hs. subst key. split; [| split].
  - unfold Storage._createFileUploadUrl, mbind, Storage.prog_bind, Storage.store.
    simpl. now rewrite Hs.
  - unfold Storage._updateFile, mbind, Storage.prog_bind, Storage.store.
    simpl. now rewrite Hs.
  - intros N. rewrite <- same_place_spec in N. apply not_true_is_false in N.
    unfold Storage._updateFileUploadUrl, mbind, Storage.prog_bind, Storage.store.
    rewrite N. simpl. now rewrite Hs.
Qed.

Lemma store_rejected_stops_everything_witness :
  let env := Storage.mkEnv (fun _ _ => false) (fun _ _ => true)
               (fun _ _ => Some "url") (fun _ _ => Some "url")
               (fun _ => None) (fun _ _ => Some None) in
  let file := Storage.mkFile "id0" "a.txt" "docs/" "bucket" 10 true in
  let params := Storage.mkParams "b.txt" None "hello" "bucket" "docs/" None true None in
  Storage.run env (Storage._updateFile true file params)
  = ([Storage.OStore "bucket" "docs/b.txt" "hello" true], None).
Proof.
  intros env file params.
  apply (store_rejected_stops_everything env true file params). reflexivity.
Defined.

(** ** Folder paths *)

Section PathFacts.
Import Paths.

Lemma is_folder_app_slash (s : string) : is_folder (s +:+ "/") = true.
Proof.
  induction s as [|c s IH]; [reflexivity |].
  rewrite append_cons. simpl. destruct (s +:+ "/") eqn:E; [| exact IH].
  destruct s; discriminate.
Qed.

Lemma trimEnd_idempotent (s : string) : trimEnd (trimEnd s) = trimEnd s.
Proof.
  induction s as [|c s IH]; [reflexivity |]. simpl.
  destruct (trimEnd s) as [|d t] eqn:E.
  - destruct (is_white_space c) eqn:W; [reflexivity |]. simpl. now rewrite W.
  - simpl in *. now rewrite IH.
Qed.

(** Trimming the end keeps a first character that is not white space. *)
Lemma trimEnd_keeps_head (c : ascii) (s : string) :
  is_white_space c = false -> exists t, trimEnd (String c s) = String c t.
Proof.
  intros W. simpl. destruct (trimEnd s) as [|d t].
  - rewrite W. now eexists.
  - now eexists.
Qed.

Lemma trimStart_head (s : string) :
  trimStart s = EmptyString
  \/ exists c t, trimStart s = String c t /\ is_white_space c = false.
Proof.
  induction s as [|c s IH]; [now left |]. simpl.
  destruct (is_white_space c) eqn:W; [exact IH |]. right. now exists c, s.
Qed.

Lemma trim_idempotent (s : string) : trim (trim s) = trim s.
Proof.
  unfold trim. destruct (trimStart_head s) as [-> | (c & t & -> & W)];
    [reflexivity |].
  destruct (trimEnd_keeps_head c t W) as [u E]. rewrite E.
  assert (S : trimStart (String c u) = String c u) by (simpl; now rewrite W).
  rewrite S, <- E. apply trimEnd_idempotent.
Qed.

Section WithRuntime.
Variable normalize : string -> string.
Variable join : string -> string -> string.

Lemma nested_from_folders (cur : string) (segments : list string) :
  Forall (fun p => is_folder p = true) (nested_from join cur segments).
Proof.
  revert cur; induction segments as [|seg rest IH]; intros cur; simpl.
  - constructor.
  - constructor; [apply is_folder_app_slash | apply IH].
Qed.

Lemma last_only_lookup (n i : nat) :
  (i < n)%nat -> last_only n !! i = Some (i =? n - 1)%nat.
Proof.
  intros H. unfold last_only. destruct (Nat.eqb_spec i (n - 1)) as [-> | N].
  - rewrite lookup_app_r by (rewrite length_replicate; lia).
    rewrite length_replicate, Nat.sub_diag. reflexivity.
  - rewrite lookup_app_l by (rewrite length_replicate; lia).
    apply lookup_replicate_2. lia.
Qed.

Lemma handle_from_spec (handler : string -> bool -> bool) (paths : list string)
    (fuel i : nat) :
  (i + fuel)%nat = length paths ->
  handle_from handler paths i fuel
  = until_rejected handler (drop i (zip paths (last_only (length paths)))).
Proof.
  revert i; induction fuel as [|fuel IH]; intros i H.
  - rewrite drop_ge; [reflexivity |]. rewrite length_zip_with. lia.
  - simpl. destruct (Nat.ltb_spec i (length paths)) as [Hlt | Hge]; [| lia].
    destruct (lookup_lt_is_Some_2 paths i Hlt) as [p Hp]. rewrite Hp.
    assert (Hz : zip paths (last_only (length paths)) !! i
                 = Some (p, (i =? length paths - 1)%nat)).
    { rewrite lookup_zip_with, Hp. simpl. now rewrite last_only_lookup. }
    rewrite (drop_S _ _ _ Hz). simpl.
    rewrite (IH (S i)) by lia. reflexivity.
Qed.

End WithRuntime.

End PathFacts.

(** X16.  [normalizeFolderPath] always answers a path that ends with a
    slash, whatever the runtime's [path.normalize] does.  It answers the
    root for a missing path and for one that is empty, blank or a lone slash
    once trimmed, and white space around the path never matters. *)
Theorem normalizeFolderPath_ends_with_slash
    (normalize : string -> string) (folderPath : option string) :
  is_folder (Paths.normalizeFolderPath normalize folderPath) = true
  /\ (folderPath = None -> Paths.normalizeFolderPath normalize folderPath = "/")
  /\ (forall p, folderPath = Some p ->
      Paths.trim p = EmptyString \/ Paths.trim p = "/" ->
      Paths.normalizeFolderPath normalize folderPath = "/")
  /\ (forall p, folderPath = Some p ->
      Paths.normalizeFolderPath normalize (Some (Paths.trim p))
      = Paths.normalizeFolderPath normalize folderPath).
Proof.
  split; [| split; [| split]].
  - destruct folderPath as [p|]; [| reflexivity]. simpl.
    destruct (_ || _ || _); [reflexivity | apply is_folder_app_slash].
  - intros ->. reflexivity.
  - intros p -> H. simpl. destruct H as [-> | ->]; simpl.
    + now rewrite orb_true_r.
    + now rewrite orb_true_r.
  - intros p ->. simpl. rewrite trim_idempotent.
    destruct p as [|c p]; [reflexivity |].
    destruct (Paths.trim (String c p)) as [|d t] eqn:E; reflexivity.
Qed.

Lemma normalizeFolderPath_ends_with_slash_witness :
  Paths.normalizeFolderPath (fun s => s) (Some "  /  ") = "/"
  /\ Paths.normalizeFolderPath (fun s => s) (Some "docs/reports")
     = Paths.normalizeFolderPath (fun s => s) (Some " docs/reports  ").
Proof.
  split.
  - apply (proj1 (proj2 (proj2
             (normalizeFolderPath_ends_with_slash (fun s => s) (Some "  /  "))))
             "  /  "); [reflexivity | right; reflexivity].
  - apply (proj2 (proj2 (proj2
             (normalizeFolderPath_ends_with_slash (fun s => s)
                (Some " docs/reports  "))))
             " docs/reports  "). reflexivity.
Defined.

(** X17.  [deepPathHandler] calls the handler on the nested paths in order,
    each ending with a slash, with the flag true for the final path only,
    and stops at the first call the handler rejects; for a blank input path
    it makes no call. *)
Theorem deepPathHandler_calls
    (normalize : string -> string) (join : string -> string -> string)
    (inputPath : string) (handler : string -> bool -> bool) :
  let paths := Paths.getNestedPaths normalize join inputPath in
  Paths.deepPathHandler normalize join inputPath handler
  = until_rejected handler (zip paths (last_only (length paths)))
  /\ Forall (fun p => is_folder p = true) paths
  /\ (Paths.trim inputPath = EmptyString ->
      Paths.deepPathHandler normalize join inputPath handler = ([], true))
  /\ ((forall p b, handler p b = true) ->
      (Paths.deepPathHandler normalize join inputPath handler).1.*1 = paths
      /\ (paths <> [] ->
          (Paths.deepPathHandler normalize join inputPath handler).1.*2
          = last_only (length paths))).
Proof.
  intros paths.
  assert (E : Paths.deepPathHandler normalize join inputPath handler
              = until_rejected handler (zip paths (last_only (length paths)))).
  { unfold Paths.deepPathHandler. fold paths.
    now rewrite (handle_from_spec handler paths (length paths) 0). }
  split; [exact E |]. split; [| split].
  - subst paths. unfold Paths.getNestedPaths.
    destruct (negb _); [apply nested_from_folders | constructor].
  - intros H. unfold Paths.deepPathHandler, Paths.getNestedPaths.
    rewrite H. reflexivity.
  - intros Hall. rewrite E.
    assert (G : forall items, until_rejected handler items = (items, true)).
    { induction items as [|[p b] rest IH]; [reflexivity |]. simpl.
      now rewrite Hall, IH. }
    rewrite G. simpl.
    assert (L : paths <> [] -> length (last_only (length paths)) = length paths).
    { intros N. unfold last_only. rewrite length_app, length_replicate. simpl.
      destruct paths; [contradiction | simpl; lia]. }
    split.
    + apply fst_zip. unfold last_only. rewrite length_app, length_replicate.
      simpl. lia.
    + intros N. apply snd_zip. rewrite (L N). lia.
Qed.

Lemma deepPathHandler_calls_witness :
  Paths.deepPathHandler (fun s => s)
    (fun a b => if Paths.is_empty a then b else a +:+ "/" +:+ b)
    "   " (fun _ _ => false) = ([], true)
  /\ (Paths.deepPathHandler (fun s => s)
        (fun a b => if Paths.is_empty a then b else a +:+ "/" +:+ b)
        "/a/b/c/" (fun _ _ => true)).1
     = [("a/", false); ("a/b/", false); ("a/b/c/", true)].
Proof.
  split.
  - apply (deepPathHandler_calls (fun s => s)
             (fun a b => if Paths.is_empty a then b else a +:+ "/" +:+ b)
             "   " (fun _ _ => false)). reflexivity.
  - rewrite (proj1 (deepPathHandler_calls (fun s => s)
             (fun a b => if Paths.is_empty a then b else a +:+ "/" +:+ b)
             "/a/b/c/" (fun _ _ => true))). reflexivity.
Defined.

(** ** Configuration read from the environment *)

(** X18.  An explicit value shadows the environment, even an empty one.
    With an explicit value the environment is never consulted; an explicit
    empty string gives [undefined] although the variable may be set; only
    a missing value falls back to the variable, and then behaves as if the
    variable's value had been passed. *)
Theorem getJsonEnv_explicit_value_first {Json : Type}
    (env : string -> option string) (parse : string -> option Json)
    (readFileSync : string -> option string) (envName : string)
    (handleString : option (string -> Error + Json)) :
  (forall value env',
      JsonEnv.getJsonEnv env parse readFileSync envName (Some value) handleString
      = JsonEnv.getJsonEnv env' parse readFileSync envName (Some value) handleString)
  /\ JsonEnv.getJsonEnv env parse readFileSync envName (Some EmptyString) handleString
     = inr None
  /\ JsonEnv.getJsonEnv env parse readFileSync envName None handleString
     = JsonEnv.getJsonEnv env parse readFileSync envName (env envName) handleString
  /\ (env envName = None \/ env envName = Some EmptyString ->
      JsonEnv.getJsonEnv env parse readFileSync envName None handleString = inr None).
Proof.
  split; [reflexivity |]. split; [reflexivity |]. split.
  - unfold JsonEnv.getJsonEnv. destruct (env envName); reflexivity.
  - unfold JsonEnv.getJsonEnv. intros [-> | ->]; reflexivity.
Qed.

Lemma getJsonEnv_explicit_value_first_witness :
  JsonEnv.getJsonEnv (fun _ => Some EmptyString) (fun s => Some s) (fun _ => None)
    "CONFIG" None None = inr None.
Proof.
  apply (getJsonEnv_explicit_value_first (fun _ => Some EmptyString)
           (fun s => Some s) (fun _ => None) "CONFIG" None).
  right. reflexivity.
Defined.

(** X19.  The two routes of [getJsonEnv].  A value that starts with an
    opening brace is parsed as it is: no file is read and the handler is
    never called, and a parse failure is the error naming the variable.
    Any other value is a file path: when the file reads and its text,
    without trailing white space, parses, that is the result and the
    handler is not called; otherwise the handler decides, on the value
    itself, and without a handler the error naming the variable is thrown,
    also when the file could not be read. *)
Theorem getJsonEnv_routes {Json : Type}
    (env : string -> option string) (parse : string -> option Json)
    (readFileSync : string -> option string) (envName value : string)
    (handleString : option (string -> Error + Json)) :
  value <> EmptyString ->
  (JS.startsWith "{" value = true ->
   (forall readFileSync' handleString',
       JsonEnv.getJsonEnv env parse readFileSync envName (Some value) handleString
       = JsonEnv.getJsonEnv env parse readFileSync' envName (Some value) handleString')
   /\ (parse value = None ->
       JsonEnv.getJsonEnv env parse readFileSync envName (Some value) handleString
       = inl (Err ("Invalid JSON in " +:+ envName)))
   /\ (forall config, parse value = Some config ->
       JsonEnv.getJsonEnv env parse readFileSync envName (Some value) handleString
       = inr (Some config)))
  /\ (JS.startsWith "{" value = false ->
      (forall text config,
          readFileSync value = Some text ->
          parse (Paths.trimEnd text) = Some config ->
          JsonEnv.getJsonEnv env parse readFileSync envName (Some value) handleString
          = inr (Some config))
      /\ (readFileSync value = None
          \/ (exists text, readFileSync value = Some text
                           /\ parse (Paths.trimEnd text) = None) ->
          JsonEnv.getJsonEnv env parse readFileSync envName (Some value) handleString
          = match handleString with
            | Some handle =>
                match handle value with
                | inr config => inr (Some config)
                | inl e => inl e
                end
            | None => inl (Err ("Invalid JSON in " +:+ envName))
            end)).
Proof.
  intros Hne. assert (E : Paths.is_empty value = false)
    by (destruct value; [contradiction | reflexivity]).
  unfold JsonEnv.getJsonEnv, JsonEnv.invalid_json. rewrite E. split.
  - intros ->. split; [reflexivity |]. split.
    + intros ->. reflexivity.
    + intros config ->. reflexivity.
  - intros ->. split.
    + intros text config -> ->. reflexivity.
    + intros [-> | (text & -> & ->)]; reflexivity.
Qed.

Lemma getJsonEnv_routes_witness :
  JsonEnv.getJsonEnv (fun _ => None)
    (fun s => if String.eqb s "{}" then Some 0%nat else None)
    (fun _ => None) "CONFIG" (Some "{oops") None
  = inl (Err "Invalid JSON in CONFIG")
  /\ JsonEnv.getJsonEnv (fun _ => None)
       (fun s => if String.eqb s "{}" then Some 0%nat else None)
       (fun _ => None) "CONFIG" (Some "/missing/file.json") None
     = inl (Err "Invalid JSON in CONFIG").
Proof.
  split.
  - apply (proj1 (proj2 (proj1 (getJsonEnv_routes (fun _ => None)
             (fun s => if String.eqb s "{}" then Some 0%nat else None)
             (fun _ => None) "CONFIG" "{oops" None
             ltac:(discriminate)) eq_refl))).
    reflexivity.
  - apply (proj2 (getJsonEnv_routes (fun _ => None)
             (fun s => if String.eqb s "{}" then Some 0%nat else None)
             (fun _ => None) "CONFIG" "/missing/file.json" None
             ltac:(discriminate)) eq_refl).
    left. reflexivity.
Defined.

(** ** The validator and the index together *)

(** X20.  A triple the validator accepts never gives a wildcard entry: its
    relation is letters only and its object has a colon, so neither is the
    wildcard, and the entity fields of the entry built from it are the
    concrete ones, with an entity that differs from the wildcard. *)
Theorem accepted_triple_not_wildcard
    (subject relation object permission : string) (tree : list string) :
  checkRelation subject relation object = inr tt ->
  let e := constructObjectIndex subject permission relation object tree in
  relation <> "*" /\ object <> "*"
  /\ oi_entity e = object +:+ "#" +:+ relation
  /\ oi_entity e <> "*"
  /\ oi_relation e = relation
  /\ oi_entityType e = JS.split colon object !! 0%nat
  /\ oi_entityId e = JS.split colon object !! 1%nat.
Proof.
  intros V e.
  assert (Hr : relation <> "*").
  { intros ->. apply accepted_relation_letters in V. discriminate V. }
  assert (Ho : object <> "*").
  { intros ->. apply accepted_has_colons in V as [_ H].
    apply includes_colon_true in H. discriminate H. }
  subst e. unfold constructObjectIndex; simpl.
  rewrite (wildcard_false _ _ Hr Ho).
  split; [exact Hr |]. split; [exact Ho |]. split; [reflexivity |].
  split; [| repeat split].
  destruct object as [|c [|c' object]]; discriminate.
Qed.

Lemma accepted_triple_not_wildcard_witness :
  oi_entity (constructObjectIndex "user:1" "read" "owner" "doc:42" [])
  = "doc:42#owner".
Proof.
  apply (accepted_triple_not_wildcard "user:1" "owner" "doc:42" "read" []).
  reflexivity.
Defined.
